(** * pgn2gif: the renderer [PgnToGifCreator] of [pgn2gif.py]

    A shallow embedding of the class [PgnToGifCreator] and of its methods
    [_draw_board], [_draw_arrow], [_coordinates_of_square],
    [_update_board_image] and [create_gif], followed by the properties that
    the specification states about them.

    Conventions of the embedding:
    - Python [int] is [Z]; Python [float] is the IEEE binary64 type [float]
      of the kernel, so [.8*(x1-x0)+x0] rounds as it does in Python;
    - Python [str] is [string], a sequence of 8-bit characters: the strings
      of the model are those whose code points are below 256; the empty
      string is written [EmptyString];
    - a [dict] whose key order is observed (a board snapshot) is an
      association list in key order; the sprite cache, whose order is never
      observed, is a [gmap];
    - an exception is a value [Raise e] of the type [result];
    - PIL images are mutable objects: they live in a [store] and are
      addressed by reference, so that [copy()] and aliasing are visible.  The
      content of an image is the term of PIL calls that built it. *)

From Stdlib Require Import ZArith Floats Uint63 String Ascii List Bool Lia.
From stdpp Require Import gmap strings list.

Set Warnings "-inexact-float".
Local Open Scope Z_scope.

(** ** Exceptions and the two monads *)

Inductive exn : Set :=
| IndexError
| KeyError
| ValueError
| OverflowError
| AttributeError
| ReferenceError.

Inductive result (A : Type) : Type :=
| Ok (a : A)
| Raise (e : exn).
Arguments Ok {A} a.
Arguments Raise {A} e.

#[export] Instance result_ret : MRet result := fun A a => Ok a.
#[export] Instance result_bind : MBind result :=
  fun A B f c => match c with Ok a => f a | Raise e => Raise e end.

(** ** PIL images *)

Inductive color : Set :=
| ColorName (name : string)
| ColorRGB (r g b : Z).

(** The content of an image: [Image.new], [Image.open], and the calls that
    drew on it since ([Image.paste], [ImageDraw.line], [ImageDraw.polygon]). *)
Inductive Image : Set :=
| Image_new (mode : string) (size : Z * Z) (fill : option color)
| Image_open (fp : string)
| Image_paste (self im : Image) (box : Z * Z) (mask : Image)
| ImageDraw_line (self : Image) (xy : float * float * float * float)
    (fill : color) (width : Z)
| ImageDraw_polygon (self : Image) (xy : list (float * float))
    (fill outline : color).

(** Whether an [ImageDraw] call was made on the image since it was created. *)
Fixpoint drawn_on (img : Image) : bool :=
  match img with
  | Image_new _ _ _ | Image_open _ => false
  | Image_paste self _ _ _ => drawn_on self
  | ImageDraw_line _ _ _ _ | ImageDraw_polygon _ _ _ _ => true
  end.

(** The store of image objects: a reference is an index. *)
Abbreviation ref := nat (only parsing).
Abbreviation store := (list Image) (only parsing).

Definition M (A : Type) : Type := store -> result (A * store).

#[export] Instance M_ret : MRet M := fun A a h => Ok (a, h).
#[export] Instance M_bind : MBind M :=
  fun A B f c h => match c h with Ok (a, h') => f a h' | Raise e => Raise e end.

Definition lift {A} (c : result A) : M A :=
  fun h => match c with Ok a => Ok (a, h) | Raise e => Raise e end.

(** A new image object holding [img]. *)
Definition alloc (img : Image) : M ref :=
  fun h => Ok (length h, h ++ [img]).

Definition content (r : ref) : M Image :=
  fun h => match h !! r with Some img => Ok (img, h) | None => Raise ReferenceError end.

(** A method that mutates the object [r] and no other: [f] gives the new
    content from the old one. *)
Definition mutate (r : ref) (f : Image -> result Image) : M unit :=
  fun h =>
    match h !! r with
    | Some img =>
        match f img with
        | Ok img' => Ok (tt, <[r := img']> h)
        | Raise e => Raise e
        end
    | None => Raise ReferenceError
    end.

(** [Image.copy()] *)
Definition Image_copy (r : ref) : M ref :=
  img ← content r; alloc img.

(** ** Python helpers *)

(** [s[n]] on a [str] *)
Definition str_index (s : string) (n : nat) : result ascii :=
  match String.get n s with Some a => Ok a | None => Raise IndexError end.

(** [l[n]] on a [list] *)
Definition list_index {A} (l : list A) (n : nat) : result A :=
  match l !! n with Some a => Ok a | None => Raise IndexError end.

Definition ord (a : ascii) : Z := Z.of_nat (nat_of_ascii a).

(** [int(ch)] on a one-character string: among the code points below 256,
    the characters of this model, the decimal digits are 0 to 9. *)
Definition int_of_char (a : ascii) : result Z :=
  if (48 <=? ord a) && (ord a <=? 57) then Ok (ord a - 48) else Raise ValueError.

(** The truth value of a [str] *)
Definition truthy (s : string) : bool :=
  match s with EmptyString => false | String _ _ => true end.

(** [float(z)] for the small integers of this program *)
Definition float_of_int (z : Z) : float :=
  if z <? 0 then PrimFloat.opp (PrimFloat.of_uint63 (Uint63.of_Z (- z)))
  else PrimFloat.of_uint63 (Uint63.of_Z z).

(** [int(x)] on a [float]: truncation toward zero *)
Definition int_of_float (x : float) : result Z :=
  match Prim2SF x with
  | S754_zero _ => Ok 0
  | S754_infinity _ => Raise OverflowError
  | S754_nan => Raise ValueError
  | S754_finite s m e =>
      let a := if 0 <=? e then Z.pos m * 2 ^ e else Z.pos m / 2 ^ (- e) in
      Ok (if s then - a else a)
  end.

Definition math_pi : float := 0x1.921fb54442d18p+1%float.

(** A [dict] in key order. *)
Definition dict (V : Type) : Type := list (string * V).

Definition keys {V} (d : dict V) : list string := map fst d.

(** [d[k]] *)
Fixpoint dict_get {V} (d : dict V) (k : string) : result V :=
  match d with
  | [] => Raise KeyError
  | (k', v) :: d' => if String.eqb k' k then Ok v else dict_get d' k
  end.

(** ** The collaborator [chess] *)

(** A board snapshot: square identifier to piece identifier, the empty
    string on an empty square. *)
Definition snapshot : Type := dict string.

(** Modelled from the spec: the class [chess.ChessGame] is not part of the
    sources.  The specification describes it as an ordered, finite sequence
    of board snapshots with a live [state], an [is_finished] flag and a
    method [next] that advances [state] by one ply. *)
Record ChessGame : Type := {
  state : snapshot;
  upcoming : list snapshot;
}.

Definition is_finished (game : ChessGame) : bool :=
  match upcoming game with [] => true | _ :: _ => false end.

Definition next (game : ChessGame) : result ChessGame :=
  match upcoming game with
  | [] => Raise IndexError
  | s :: rest => Ok {| state := s; upcoming := rest |}
  end.

(** The number of plies of a game. *)
Definition plies (game : ChessGame) : nat := length (upcoming game).

(** ** The class [PgnToGifCreator] *)

Definition _BOARD_SIZE : Z := 480.
Definition _SQ_SIZE : Z := _BOARD_SIZE / 8.

(** The attributes of an instance.  [_ws], [_bs] and [_initial_board] do
    not exist before the first [_draw_board]. *)
Record PgnToGifCreator : Type := {
  duration : float;
  _pieces : gmap string Image;
  _reverse : bool;
  _ws_color : string;
  _bs_color : string;
  _arrow : bool;
  _should_redraw : bool;
  _ws : option Image;
  _bs : option Image;
  _initial_board : option ref;
}.

Definition attr {A} (a : option A) : result A :=
  match a with Some x => Ok x | None => Raise AttributeError end.

(** [self._pieces[piece]] *)
Definition pieces_get (pieces : gmap string Image) (piece : string) : result Image :=
  match pieces !! piece with Some img => Ok img | None => Raise KeyError end.

Definition __init__ (reverse : bool) (duration : float) (ws_color bs_color : string)
    (arrow : bool) : PgnToGifCreator :=
  {| duration := duration; _pieces := ∅; _reverse := reverse;
     _ws_color := ws_color; _bs_color := bs_color; _arrow := arrow;
     _should_redraw := true;
     _ws := None; _bs := None; _initial_board := None |}.

(** The default arguments of [__init__]. *)
Definition PgnToGifCreator_default : PgnToGifCreator :=
  __init__ false 0.4%float "#f0d9b5" "#b58863" false.

(** The property getters. *)
Definition reverse (self : PgnToGifCreator) : bool := _reverse self.
Definition ws_color (self : PgnToGifCreator) : string := _ws_color self.
Definition bs_color (self : PgnToGifCreator) : string := _bs_color self.

(** The property setters. *)
Definition set_reverse (self : PgnToGifCreator) (reverse : bool) : PgnToGifCreator :=
  {| duration := duration self; _pieces := _pieces self; _reverse := reverse;
     _ws_color := _ws_color self; _bs_color := _bs_color self; _arrow := _arrow self;
     _should_redraw := true;
     _ws := _ws self; _bs := _bs self; _initial_board := _initial_board self |}.

Definition set_ws_color (self : PgnToGifCreator) (ws_color : string) : PgnToGifCreator :=
  {| duration := duration self; _pieces := _pieces self; _reverse := _reverse self;
     _ws_color := ws_color; _bs_color := _bs_color self; _arrow := _arrow self;
     _should_redraw := true;
     _ws := _ws self; _bs := _bs self; _initial_board := _initial_board self |}.

Definition set_bs_color (self : PgnToGifCreator) (bs_color : string) : PgnToGifCreator :=
  {| duration := duration self; _pieces := _pieces self; _reverse := _reverse self;
     _ws_color := _ws_color self; _bs_color := bs_color; _arrow := _arrow self;
     _should_redraw := true;
     _ws := _ws self; _bs := _bs self; _initial_board := _initial_board self |}.

(** [_coordinates_of_square] *)
Definition _coordinates_of_square (self : PgnToGifCreator) (square : string)
    : result (Z * Z) :=
  a ← str_index square 0;
  let c := ord a - 97 in
  b ← str_index square 1;
  d ← int_of_char b;
  let r := d - 1 in
  if reverse self then Ok ((7 - c) * _SQ_SIZE, r * _SQ_SIZE)
  else Ok (c * _SQ_SIZE, (7 - r) * _SQ_SIZE).

(** The test of [_update_board_image] that selects the tile [_ws]. *)
Definition white_square (crd : Z * Z) : bool :=
  (crd.1 + crd.2) mod (_SQ_SIZE * 2) =? 0.

(** [_update_board_image]: it mutates [board_image] and nothing else, so it
    takes the content of [board_image] and returns the new content. *)
Fixpoint _update_board_image (self : PgnToGifCreator) (board_image : Image)
    (game_state : snapshot) (changed_squares : list string) : result Image :=
  match changed_squares with
  | [] => Ok board_image
  | square :: changed_squares =>
      crd ← _coordinates_of_square self square;
      tile ← (if white_square crd then attr (_ws self) else attr (_bs self));
      let board_image := Image_paste board_image tile crd tile in
      piece ← dict_get game_state square;
      board_image ←
        (if truthy piece
         then img ← pieces_get (_pieces self) piece;
              Ok (Image_paste board_image img crd img)
         else Ok board_image);
      _update_board_image self board_image game_state changed_squares
  end.

(** What [parser.parse_args()] returns.  [duration] is the default [0.4] or
    the text of the option; [out] is the text of the output folder. *)
Record Namespace : Type := {
  args_path : list string;
  args_duration : float + string;
  args_out : string;
  args_reverse : bool;
  args_black_square_color : string;
  args_white_square_color : string;
  args_arrow : bool;
}.

(** ** A concrete environment

    The module [chess], the directory [assets] and the libraries are not
    part of the sources; the instances below let the model run. *)

(** [d[k] = v] *)
Fixpoint dict_set {V} (d : dict V) (k : string) (v : V) : dict V :=
  match d with
  | [] => [(k, v)]
  | (k', v') :: d' =>
      if String.eqb k' k then (k', v) :: d' else (k', v') :: dict_set d' k v
  end.

(** The name of the square of file index [c] and rank index [r]. *)
Definition square_name (c r : Z) : string :=
  String (ascii_of_nat (Z.to_nat (97 + c)))
    (String (ascii_of_nat (Z.to_nat (49 + r))) EmptyString).

Definition rank_of (r : Z) (pieces : list string) : snapshot :=
  imap (fun c piece => (square_name (Z.of_nat c) r, piece)) pieces.

Definition empty_rank : list string := replicate 8 EmptyString.

(** Modelled from the spec: the constant [chess.INITIAL_STATE] is not part
    of the sources.  The specification describes it as the 64-entry snapshot
    of the starting position; the keys run from a8 to h1 and a piece is
    named by its colour and its kind. *)
Definition standard_initial_state : snapshot :=
  rank_of 7 ["br"; "bn"; "bb"; "bq"; "bk"; "bb"; "bn"; "br"]
  ++ rank_of 6 (replicate 8 "bp")
  ++ rank_of 5 empty_rank ++ rank_of 4 empty_rank
  ++ rank_of 3 empty_rank ++ rank_of 2 empty_rank
  ++ rank_of 1 (replicate 8 "wp")
  ++ rank_of 0 ["wr"; "wn"; "wb"; "wq"; "wk"; "wb"; "wn"; "wr"].

(** The directory [assets]: one file per piece. *)
Definition standard_assets : list string :=
  ["assets/bb.png"; "assets/bk.png"; "assets/bn.png"; "assets/bp.png";
   "assets/bq.png"; "assets/br.png"; "assets/wb.png"; "assets/wk.png";
   "assets/wn.png"; "assets/wp.png"; "assets/wq.png"; "assets/wr.png"].

(** The same directory with a second file of stem [wp], listed first. *)
Definition assets_two_wp : list string := "assets/old/wp.png" :: standard_assets.

(** [Path(p).stem] for a path of the form [dir/name.ext]. *)
Fixpoint after_last (sep : ascii) (acc s : string) : string :=
  match s with
  | EmptyString => acc
  | String a s' =>
      if Ascii.eqb a sep then after_last sep s' s' else after_last sep acc s'
  end.

Fixpoint before_last (sep : ascii) (s : string) : option string :=
  match s with
  | EmptyString => None
  | String a s' =>
      match before_last sep s' with
      | Some t => Some (String a t)
      | None => if Ascii.eqb a sep then Some EmptyString else None
      end
  end.

Definition stem_of (p : string) : string :=
  let name := after_last "/" p p in
  match before_last "." name with
  | Some (String a t) => String a t
  | _ => name
  end.

(** The position after 1. e4, and the game that plays this single ply. *)
Definition after_e4 : snapshot :=
  dict_set (dict_set standard_initial_state "e2" EmptyString) "e4" "wp".

Definition game_e4 : ChessGame :=
  {| state := standard_initial_state; upcoming := [after_e4] |}.

(** A game of no ply: the source is finished from the start. *)
Definition game_empty : ChessGame :=
  {| state := standard_initial_state; upcoming := [] |}.

(** A snapshot source whose single ply changes one square only. *)
Definition game_one_change : ChessGame :=
  {| state := standard_initial_state;
     upcoming := [dict_set standard_initial_state "e2" EmptyString] |}.

(** The constructor [chess.ChessGame(pgn)] on these games. *)
Definition load_e4 (pgn : string) : result ChessGame := Ok game_e4.
Definition load_empty (pgn : string) : result ChessGame := Ok game_empty.
Definition load_one_change (pgn : string) : result ChessGame := Ok game_one_change.

(** An instance with the arrow overlay enabled, as its first [_draw_board]
    leaves it, and the store that holds its initial canvas. *)
Definition arrow_creator : PgnToGifCreator :=
  {| duration := 0.4%float;
     _pieces :=
       fold_left (fun pieces asset => <[stem_of asset := Image_open asset]> pieces)
         standard_assets ∅;
     _reverse := false;
     _ws_color := "#f0d9b5"; _bs_color := "#b58863";
     _arrow := true; _should_redraw := false;
     _ws := Some (Image_new "RGBA" (_SQ_SIZE, _SQ_SIZE) (Some (ColorName "#f0d9b5")));
     _bs := Some (Image_new "RGBA" (_SQ_SIZE, _SQ_SIZE) (Some (ColorName "#b58863")));
     _initial_board := Some 0%nat |}.

Definition blank_board : Image := Image_new "RGBA" (_BOARD_SIZE, _BOARD_SIZE) None.

(** [blank_board] after the squares e4 and e2 of [after_e4] are painted. *)
Definition e4_canvas : Image :=
  match _update_board_image arrow_creator blank_board after_e4 ["e4"; "e2"] with
  | Ok img => img
  | Raise _ => blank_board
  end.

(** A loader that knows two files and fails to parse any other. *)
Definition load_by_name (pgn : string) : result ChessGame :=
  if String.eqb pgn "games/e4.pgn" then Ok game_e4
  else if String.eqb pgn "games/empty.pgn" then Ok game_empty
  else Raise ValueError.

(** [str(Path(a) / b)] for a relative [b] and a folder [a] written without
    a final separator. *)
Definition join_paths (a b : string) : string := (a ++ "/" ++ b)%string.

(** A stand-in for [float] on a [str]; the examples use the default
    duration, which is a [float] already. *)
Definition float_of_str_stub (s : string) : result float := Raise ValueError.

(** Two snapshots of a source that breaks its contract: the second has a
    key that the first has not. *)
Definition only_e2 : snapshot := [("e2", "wp")].
Definition e2_and_e4 : snapshot := [("e2", EmptyString); ("e4", "wp")].

(** The arguments of [pgn2gif games/e4.pgn games/empty.pgn -o out] and of
    the same command with a file in between that does not parse. *)
Definition args_two : Namespace :=
  {| args_path := ["games/e4.pgn"; "games/empty.pgn"];
     args_duration := inl 0.4%float;
     args_out := "out";
     args_reverse := false;
     args_black_square_color := "#b58863";
     args_white_square_color := "#f0d9b5";
     args_arrow := false |}.

Definition args_with_bad : Namespace :=
  {| args_path := ["games/e4.pgn"; "games/bad.pgn"; "games/empty.pgn"];
     args_duration := inl 0.4%float;
     args_out := "out";
     args_reverse := false;
     args_black_square_color := "#b58863";
     args_white_square_color := "#f0d9b5";
     args_arrow := false |}.

(** Stand-ins for [math.atan2], [math.cos] and [math.sin]: the properties
    below hold for every choice of these functions. *)
Definition atan2_stub (y x : float) : float := 0%float.
Definition cos_stub (x : float) : float := 1%float.
Definition sin_stub (x : float) : float := 0%float.

Section Renderer.

(** What the sources do not contain: the module [chess], the directory
    [assets] beside the program, [pathlib] and [math]. *)
Variable INITIAL_STATE : snapshot.
Variable ChessGame_load : string -> result ChessGame.
Variable assets : list string.
Variable Path_stem : string -> string.
Variables math_atan2 : float -> float -> float.
Variables math_cos math_sin : float -> float.

(** [_draw_arrow]: it draws on [board] and nothing else.  The callers use
    the defaults [width=3] and [color=(120,30,72)]. *)
Definition _draw_arrow (board : Image) (x0 y0 x1 y1 : float)
    (width : Z) (color : color) : Image :=
  let xb := (0.8 * (x1 - x0) + x0)%float in
  let yb := (0.8 * (y1 - y0) + y0)%float in
  let vtx :=
    if (x0 =? x1)%float then ((xb - 10, yb), (xb + 10, yb))%float
    else if (y0 =? y1)%float then ((xb, yb + 10), (xb, yb - 10))%float
    else
      let alpha := (math_atan2 (y1 - y0) (x1 - x0) - 90 * math_pi / 180)%float in
      let a := (8 * math_cos alpha)%float in
      let b := (8 * math_sin alpha)%float in
      ((xb + a, yb + b), (xb - a, yb - b))%float in
  let board := ImageDraw_line board (x0, y0, x1, y1) color width in
  ImageDraw_polygon board [vtx.1; vtx.2; (x1, y1)] color color.

(** The loop of [_draw_board] over the directory [assets]. *)
Definition load_assets (pieces : gmap string Image) : gmap string Image :=
  fold_left (fun pieces asset => <[Path_stem asset := Image_open asset]> pieces)
    assets pieces.

(** [_draw_board] *)
Definition _draw_board (self : PgnToGifCreator) : M PgnToGifCreator :=
  let pieces :=
    if Nat.eqb (size (_pieces self)) 0 then load_assets (_pieces self)
    else _pieces self in
  let ws := Image_new "RGBA" (_SQ_SIZE, _SQ_SIZE) (Some (ColorName (ws_color self))) in
  let bs := Image_new "RGBA" (_SQ_SIZE, _SQ_SIZE) (Some (ColorName (bs_color self))) in
  initial_board ← alloc (Image_new "RGBA" (_BOARD_SIZE, _BOARD_SIZE) None);
  let self :=
    {| duration := duration self; _pieces := pieces; _reverse := _reverse self;
       _ws_color := _ws_color self; _bs_color := _bs_color self;
       _arrow := _arrow self; _should_redraw := _should_redraw self;
       _ws := Some ws; _bs := Some bs; _initial_board := Some initial_board |} in
  _ ← mutate initial_board
        (fun img => _update_board_image self img INITIAL_STATE (keys INITIAL_STATE));
  mret
    {| duration := duration self; _pieces := _pieces self; _reverse := _reverse self;
       _ws_color := _ws_color self; _bs_color := _bs_color self;
       _arrow := _arrow self; _should_redraw := false;
       _ws := _ws self; _bs := _bs self; _initial_board := _initial_board self |}.

(** The list comprehension of [create_gif]:
    [[s for s in game.state.keys() if game.state[s] != previous[s]]],
    with [ks] the keys still to visit. *)
Fixpoint changed_among (ks : list string) (cur previous : snapshot)
    : result (list string) :=
  match ks with
  | [] => Ok []
  | s :: ks =>
      a ← dict_get cur s;
      b ← dict_get previous s;
      rest ← changed_among ks cur previous;
      Ok (if negb (String.eqb a b) then s :: rest else rest)
  end.

Definition changed_squares_of (cur previous : snapshot) : result (list string) :=
  changed_among (keys cur) cur previous.

(** The arguments of the call of [_draw_arrow] in [create_gif]: the centre
    of the square [to], then the centre of the square [fr]. *)
Definition arrow_of_move (self : PgnToGifCreator) (cur : snapshot)
    (changed_squares : list string) : result (float * float * float * float) :=
  s1 ← list_index changed_squares 1;
  p ← dict_get cur s1;
  let empty := if truthy p then 1%nat else 0%nat in
  sf ← list_index changed_squares empty;
  fr ← _coordinates_of_square self sf;
  st ← list_index changed_squares (1 - empty)%nat;
  to ← _coordinates_of_square self st;
  let off := (float_of_int _SQ_SIZE / float_of_int 2)%float in
  Ok (float_of_int to.1 + off, float_of_int to.2 + off,
      float_of_int fr.1 + off, float_of_int fr.2 + off)%float.

(** The body of the [while] loop of [create_gif], from [previous], the copy
    of [game.state] taken before [game.next()], and [cur], the state after
    it. *)
Definition ply (self : PgnToGifCreator) (board_image : ref)
    (previous cur : snapshot) (frames : list ref) : M (list ref) :=
  changed_squares ← lift (changed_squares_of cur previous);
  _ ← mutate board_image
        (fun img => _update_board_image self img cur changed_squares);
  copy ← Image_copy board_image;
  _ ← (if _arrow self then
         if (0 <? length changed_squares)%nat then
           '(x0, y0, x1, y1) ← lift (arrow_of_move self cur changed_squares);
           mutate copy
             (fun img => Ok (_draw_arrow img x0 y0 x1 y1 3 (ColorRGB 120 30 72)))
         else mret tt
       else mret tt);
  mret (frames ++ [copy]).

(** The [while not game.is_finished] loop, by recursion on the snapshots
    that [game.next()] is still to produce. *)
Fixpoint play_from (self : PgnToGifCreator) (board_image : ref)
    (previous : snapshot) (rest : list snapshot) (frames : list ref)
    : M (list ref) :=
  match rest with
  | [] => mret frames
  | cur :: rest =>
      frames ← ply self board_image previous cur frames;
      play_from self board_image cur rest frames
  end.

Definition play (self : PgnToGifCreator) (board_image : ref) (game : ChessGame)
    (frames : list ref) : M (list ref) :=
  play_from self board_image (state game) (upcoming game) frames.

(** What [Image.save] receives. *)
Record GifFile : Type := {
  gif_path : string;
  gif_images : list Image;
  gif_duration : Z;
  gif_loop : Z;
  gif_optimize : bool;
}.

Fixpoint contents (rs : list ref) : M (list Image) :=
  match rs with
  | [] => mret []
  | r :: rs => img ← content r; imgs ← contents rs; mret (img :: imgs)
  end.

(** [create_gif] up to the three held frames: the instance, the live canvas
    [board_image] and the list [frames]. *)
Definition create_gif_frames (self : PgnToGifCreator) (pgn : string)
    : M (PgnToGifCreator * ref * list ref) :=
  self ← (if _should_redraw self then _draw_board self else mret self);
  initial_board ← lift (attr (_initial_board self));
  board_image ← Image_copy initial_board;
  frame ← Image_copy board_image;
  let frames := [frame] in
  game ← lift (ChessGame_load pgn);
  frames ← play self board_image game frames;
  last ← lift (list_index frames (length frames - 1));
  let frames := frames ++ [last; last; last] in
  mret (self, board_image, frames).

(** [out_path], or the default when it is [None] or empty. *)
Definition save_path (pgn : string) (out_path : option string) : string :=
  match out_path with
  | Some (String a p) => String a p
  | _ => (Path_stem pgn ++ ".gif")%string
  end.

(** [create_gif] *)
Definition create_gif (self : PgnToGifCreator) (pgn : string)
    (out_path : option string) : M (PgnToGifCreator * GifFile) :=
  '(self, _, frames) ← create_gif_frames self pgn;
  let out_path := save_path pgn out_path in
  first ← lift (list_index frames 0);
  ms ← lift (int_of_float (duration self * 1000)%float);
  images ← contents (first :: drop 1 frames);
  mret (self,
        {| gif_path := out_path; gif_images := images; gif_duration := ms;
           gif_loop := 0; gif_optimize := true |}).

(** ** Well-formed inputs and the functional reading of the loop *)

(** A square identifier: a file from a to h, then a rank from 1 to 8. *)
Definition valid_square (s : string) : bool :=
  match s with
  | String f (String r EmptyString) =>
      (97 <=? ord f) && (ord f <=? 104) && (49 <=? ord r) && (ord r <=? 56)
  | _ => false
  end.

(** The piece is the empty marker or has a sprite. *)
Definition sprite_ok (pieces : gmap string Image) (piece : string) : bool :=
  negb (truthy piece) || match pieces !! piece with Some _ => true | None => false end.

Definition snapshot_ok (pieces : gmap string Image) (st : snapshot) : bool :=
  forallb (fun sp => valid_square sp.1 && sprite_ok pieces sp.2) st.

Definition has_key {V} (d : dict V) (k : string) : bool :=
  existsb (fun k' => String.eqb k' k) (keys d).

(** Every key of [cur] is a key of [previous]. *)
Definition keys_within (cur previous : snapshot) : bool :=
  forallb (has_key previous) (keys cur).

(** The occupant of [s] differs between the two snapshots. *)
Definition differs (cur previous : snapshot) (s : string) : bool :=
  match dict_get cur s, dict_get previous s with
  | Ok a, Ok b => negb (String.eqb a b)
  | _, _ => false
  end.

Definition changed_list (cur previous : snapshot) : list string :=
  List.filter (differs cur previous) (keys cur).

(** The snapshots of a game are well formed, each over the keys of the one
    before. *)
Fixpoint plies_wf (pieces : gmap string Image) (previous : snapshot)
    (rest : list snapshot) : bool :=
  match rest with
  | [] => true
  | cur :: rest =>
      snapshot_ok pieces cur && keys_within cur previous && plies_wf pieces cur rest
  end.

(** No ply changes exactly one square. *)
Fixpoint arrow_safe (previous : snapshot) (rest : list snapshot) : bool :=
  match rest with
  | [] => true
  | cur :: rest =>
      negb (Nat.eqb (length (changed_list cur previous)) 1) && arrow_safe cur rest
  end.

(** The instance as [_draw_board] leaves it, with [r] the new initial
    canvas. *)
Definition redrawn (self : PgnToGifCreator) (r : ref) : PgnToGifCreator :=
  {| duration := duration self;
     _pieces := if Nat.eqb (size (_pieces self)) 0 then load_assets (_pieces self)
                else _pieces self;
     _reverse := _reverse self;
     _ws_color := _ws_color self; _bs_color := _bs_color self;
     _arrow := _arrow self; _should_redraw := false;
     _ws := Some (Image_new "RGBA" (_SQ_SIZE, _SQ_SIZE) (Some (ColorName (_ws_color self))));
     _bs := Some (Image_new "RGBA" (_SQ_SIZE, _SQ_SIZE) (Some (ColorName (_bs_color self))));
     _initial_board := Some r |}.

(** The initial canvas that [_draw_board] paints from the configuration of
    [self]. *)
Definition initial_canvas (self : PgnToGifCreator) : result Image :=
  _update_board_image (redrawn self 0%nat)
    (Image_new "RGBA" (_BOARD_SIZE, _BOARD_SIZE) None)
    INITIAL_STATE (keys INITIAL_STATE).

(** The instance that [create_gif] renders with. *)
Definition prepared (self : PgnToGifCreator) (r : ref) : PgnToGifCreator :=
  if _should_redraw self then redrawn self r else self.

(** The sprite cache that [create_gif] renders with. *)
Definition sprites (self : PgnToGifCreator) : gmap string Image :=
  _pieces (prepared self 0%nat).

(** An instance whose initial canvas is not stale has one, in the store,
    with its two tiles. *)
Definition ready (self : PgnToGifCreator) (h : store) : bool :=
  _should_redraw self
  || match _initial_board self, _ws self, _bs self with
     | Some r, Some _, Some _ =>
         match h !! r with Some img => negb (drawn_on img) | None => false end
     | _, _, _ => false
     end.

(** A stale initial canvas can be painted again. *)
Definition drawable (self : PgnToGifCreator) : bool :=
  negb (_should_redraw self) || snapshot_ok (sprites self) INITIAL_STATE.

(** The game can be rendered by [self]. *)
Definition game_ok (self : PgnToGifCreator) (game : ChessGame) : bool :=
  plies_wf (sprites self) (state game) (upcoming game)
  && (negb (_arrow self) || arrow_safe (state game) (upcoming game)).

(** The live canvas after the ply from [previous] to [cur]. *)
Definition repaint (self : PgnToGifCreator) (previous cur : snapshot)
    (img : Image) : result Image :=
  changed_squares ← changed_squares_of cur previous;
  _update_board_image self img cur changed_squares.

(** The frame captured after the ply, from the live canvas [img]. *)
Definition frame_of (self : PgnToGifCreator) (previous cur : snapshot)
    (img : Image) : result Image :=
  changed_squares ← changed_squares_of cur previous;
  if _arrow self then
    if (0 <? length changed_squares)%nat then
      '(x0, y0, x1, y1) ← arrow_of_move self cur changed_squares;
      Ok (_draw_arrow img x0 y0 x1 y1 3 (ColorRGB 120 30 72))
    else Ok img
  else Ok img.

(** The live canvas after all the plies, and the frames captured on the
    way, in ply order. *)
Fixpoint render (self : PgnToGifCreator) (img : Image) (previous : snapshot)
    (rest : list snapshot) : result (Image * list Image) :=
  match rest with
  | [] => Ok (img, [])
  | cur :: rest =>
      img ← repaint self previous cur img;
      frame ← frame_of self previous cur img;
      '(final, frames) ← render self img cur rest;
      Ok (final, frame :: frames)
  end.

(** The contents of the live canvas after each ply, in ply order. *)
Fixpoint repaints (self : PgnToGifCreator) (img : Image) (previous : snapshot)
    (rest : list snapshot) : result (list Image) :=
  match rest with
  | [] => Ok []
  | cur :: rest =>
      img ← repaint self previous cur img;
      canvases ← repaints self img cur rest;
      Ok (img :: canvases)
  end.

(** The frame captured from the live canvas [canvas]: a copy of it, with
    the arrow of the move drawn on the copy when the overlay is enabled. *)
Definition captured (self : PgnToGifCreator) (canvas frame : Image) : Prop :=
  frame = canvas
  \/ (_arrow self = true
      /\ exists x0 y0 x1 y1,
           frame = _draw_arrow canvas x0 y0 x1 y1 3 (ColorRGB 120 30 72)).

(** The centre of the square whose corner is [crd]. *)
Definition centre (crd : Z * Z) : float * float :=
  let off := (float_of_int _SQ_SIZE / float_of_int 2)%float in
  (float_of_int crd.1 + off, float_of_int crd.2 + off)%float.

(** The changed square is in the snapshot and its piece, if any, has a
    sprite. *)
Definition paintable (pieces : gmap string Image) (st : snapshot) (s : string) : bool :=
  match dict_get st s with
  | Ok p => sprite_ok pieces p
  | Raise _ => false
  end.

(** The file of the directory [assets] that [_draw_board] keeps for the
    stem [k]: the last one listed with this stem. *)
Definition asset_of_stem (k : string) : option string :=
  find (fun asset => String.eqb (Path_stem asset) k) (rev assets).

(** The last snapshot of [rest], or [previous] when there is none. *)
Definition last_state (previous : snapshot) (rest : list snapshot) : snapshot :=
  List.last rest previous.

(** ** The command line: [main] *)

(** [float(x)], from [float_of_str], the conversion of a [str]. *)
Definition builtin_float (float_of_str : string -> result float)
    (x : float + string) : result float :=
  match x with
  | inl f => Ok f
  | inr s => float_of_str s
  end.

(** The [for pgn in args.path] loop of [main]: the files saved so far, and
    the instance and the store at the end, or the exception that stopped the
    loop.  [Path_join a b] is [str(Path(a) / b)]. *)
Fixpoint main_loop (Path_join : string -> string -> string)
    (creator : PgnToGifCreator) (out : string) (paths : list string)
    (h : store) : list GifFile * result (PgnToGifCreator * store) :=
  match paths with
  | [] => ([], Ok (creator, h))
  | pgn :: paths =>
      let f := (Path_stem pgn ++ ".gif")%string in
      match create_gif creator pgn (Some (Path_join out f)) h with
      | Raise e => ([], Raise e)
      | Ok ((creator, gif), h) =>
          let '(gifs, r) := main_loop Path_join creator out paths h in
          (gif :: gifs, r)
      end
  end.

(** [main], from the parsed arguments: the files it saves, and whether it
    returns or raises. *)
Definition main (Path_join : string -> string -> string)
    (float_of_str : string -> result float) (args : Namespace) (h : store)
    : list GifFile * result unit :=
  match builtin_float float_of_str (args_duration args) with
  | Raise e => ([], Raise e)
  | Ok d =>
      let creator :=
        __init__ (args_reverse args) d (args_white_square_color args)
          (args_black_square_color args) (args_arrow args) in
      let '(gifs, r) :=
        main_loop Path_join creator (args_out args) (args_path args) h in
      (gifs, match r with Ok _ => Ok tt | Raise e => Raise e end)
  end.

(** Every path loads a game that [creator] can render. *)
Definition paths_ok (creator : PgnToGifCreator) (paths : list string) : bool :=
  forallb (fun pgn => match ChessGame_load pgn with
                      | Ok game => game_ok creator game
                      | Raise _ => false
                      end) paths.

(** What [main] saves for the input [pgn] in the folder [out]. *)
Definition saved_for (Path_join : string -> string -> string) (out pgn : string)
    (gif : GifFile) : Prop :=
  gif_path gif = save_path pgn (Some (Path_join out (Path_stem pgn ++ ".gif")%string))
  /\ exists game,
       ChessGame_load pgn = Ok game
       /\ length (gif_images gif) = (plies game + 4)%nat.

(** The canvas with every paste moved to the corner that the half turn of
    the board gives its box; what is pasted is not turned. *)
Fixpoint half_turn (img : Image) : Image :=
  match img with
  | Image_paste self im box mask =>
      Image_paste (half_turn self) im
        (_BOARD_SIZE - _SQ_SIZE - box.1, _BOARD_SIZE - _SQ_SIZE - box.2) mask
  | other => other
  end.

(** [self] with the reversal flag flipped, the rest as it is. *)
Definition flipped (self : PgnToGifCreator) : PgnToGifCreator :=
  {| duration := duration self; _pieces := _pieces self;
     _reverse := negb (_reverse self);
     _ws_color := _ws_color self; _bs_color := _bs_color self;
     _arrow := _arrow self; _should_redraw := _should_redraw self;
     _ws := _ws self; _bs := _bs self; _initial_board := _initial_board self |}.

(** ** Properties *)

Ltac unfold_m :=
  unfold mbind, mret, result_bind, result_ret, M_bind, M_ret, lift in *.

Lemma small_cases (c : Z) :
  0 <= c <= 7 -> c = 0 \/ c = 1 \/ c = 2 \/ c = 3 \/ c = 4 \/ c = 5 \/ c = 6 \/ c = 7.
Proof. lia. Qed.

Ltac each_index c H :=
  destruct (small_cases c H) as [-> | [-> | [-> | [-> | [-> | [-> | [-> | ->]]]]]]].

Lemma coordinates_of_square_name (self : PgnToGifCreator) (c r : Z) :
  0 <= c <= 7 -> 0 <= r <= 7 ->
  _coordinates_of_square self (square_name c r)
  = Ok (if _reverse self then ((7 - c) * _SQ_SIZE, r * _SQ_SIZE)
        else (c * _SQ_SIZE, (7 - r) * _SQ_SIZE)).
Proof.
  intros Hc Hr. unfold _coordinates_of_square, reverse.
  each_index c Hc; each_index r Hr; destruct (_reverse self); reflexivity.
Qed.

Lemma ord_range (a : ascii) (lo : Z) :
  0 <= lo -> lo <= ord a <= lo + 7 ->
  exists c, 0 <= c <= 7 /\ a = ascii_of_nat (Z.to_nat (lo + c)).
Proof.
  intros Hlo H. exists (ord a - lo). split; [lia|].
  replace (lo + (ord a - lo)) with (ord a) by lia.
  unfold ord. rewrite Nat2Z.id. symmetry. apply ascii_nat_embedding.
Qed.

Lemma valid_square_name (s : string) :
  valid_square s = true <->
  exists c r, 0 <= c <= 7 /\ 0 <= r <= 7 /\ s = square_name c r.
Proof.
  split.
  - destruct s as [|f [|r [|]]]; simpl; try discriminate.
    rewrite !andb_true_iff, !Z.leb_le. intros [[[H1 H2] H3] H4].
    destruct (ord_range f 97) as (c & Hc & ->); [lia | lia |].
    destruct (ord_range r 49) as (k & Hk & ->); [lia | lia |].
    exists c, k. auto.
  - intros (c & r & Hc & Hr & ->).
    each_index c Hc; each_index r Hr; reflexivity.
Qed.

(** C4: for every valid square (file index [c], rank index [r]) the
    coordinates depend on the square and on the reversal flag only: not
    reversed, the square is at column [c] and row [7-r], so that a1 is at
    the bottom left [(0, 7*_SQ_SIZE)]; reversed, it is at column [7-c] and
    row [r], so that a1 is at the top right; the two positions are images of
    each other under the half turn of the board. *)
Theorem coordinates_of_square_spec (self : PgnToGifCreator) (c r : Z) :
  0 <= c <= 7 -> 0 <= r <= 7 ->
  valid_square (square_name c r) = true
  /\ _coordinates_of_square (set_reverse self false) (square_name c r)
     = Ok (c * _SQ_SIZE, (7 - r) * _SQ_SIZE)
  /\ _coordinates_of_square (set_reverse self true) (square_name c r)
     = Ok ((7 - c) * _SQ_SIZE, r * _SQ_SIZE)
  /\ (forall other : PgnToGifCreator,
        _reverse other = _reverse self ->
        _coordinates_of_square other (square_name c r)
        = _coordinates_of_square self (square_name c r))
  /\ (forall x y,
        _coordinates_of_square (set_reverse self false) (square_name c r) = Ok (x, y) ->
        _coordinates_of_square (set_reverse self true) (square_name c r)
        = Ok (_BOARD_SIZE - _SQ_SIZE - x, _BOARD_SIZE - _SQ_SIZE - y))
  /\ _coordinates_of_square (set_reverse self false) "a1" = Ok (0, 7 * _SQ_SIZE)
  /\ _coordinates_of_square (set_reverse self true) "a1" = Ok (7 * _SQ_SIZE, 0).
Proof.
  intros Hc Hr.
  split; [apply valid_square_name; eauto|].
  split; [apply (coordinates_of_square_name (set_reverse self false)); assumption|].
  split; [apply (coordinates_of_square_name (set_reverse self true)); assumption|].
  split.
  { intros other Hrev. rewrite !coordinates_of_square_name by assumption.
    rewrite Hrev. reflexivity. }
  split.
  { intros x y. rewrite !coordinates_of_square_name by assumption. simpl.
    intros [= <- <-]. change _SQ_SIZE with 60. change _BOARD_SIZE with 480.
    do 2 f_equal; lia. }
  split; reflexivity.
Qed.

Lemma white_square_parity (self : PgnToGifCreator) (c r : Z) (crd : Z * Z) :
  0 <= c <= 7 -> 0 <= r <= 7 ->
  _coordinates_of_square self (square_name c r) = Ok crd ->
  white_square crd = Z.odd (c + r).
Proof.
  intros Hc Hr. rewrite coordinates_of_square_name by assumption.
  intros [= <-].
  each_index c Hc; each_index r Hr; destruct (_reverse self); reflexivity.
Qed.

(** C5: the test [sum(crd) % (2*_SQ_SIZE) == 0] of [_update_board_image]
    selects the tile [_ws] exactly on the squares whose file and rank
    indices have an odd sum, whatever the reversal flag: the classes
    alternate as on a chessboard, a1 and h8 are in one class, a1 and b1 are
    not. *)
Theorem checker_alternation (self : PgnToGifCreator) (c r : Z) :
  0 <= c <= 7 -> 0 <= r <= 7 ->
  exists crd,
    _coordinates_of_square self (square_name c r) = Ok crd
    /\ white_square crd = Z.odd (c + r)
    /\ (forall (other : PgnToGifCreator) (crd' : Z * Z),
          _coordinates_of_square other (square_name c r) = Ok crd' ->
          white_square crd' = white_square crd)
    /\ (forall (img : Image) (st : snapshot) (ws bs : Image),
          _ws self = Some ws -> _bs self = Some bs ->
          dict_get st (square_name c r) = Ok EmptyString ->
          _update_board_image self img st [square_name c r]
          = Ok (let tile := if Z.odd (c + r) then ws else bs in
                Image_paste img tile crd tile))
    /\ (exists a1 h8 b1,
          _coordinates_of_square self "a1" = Ok a1
          /\ _coordinates_of_square self "h8" = Ok h8
          /\ _coordinates_of_square self "b1" = Ok b1
          /\ white_square a1 = white_square h8
          /\ white_square b1 = negb (white_square a1)).
Proof.
  intros Hc Hr.
  pose proof (coordinates_of_square_name self c r Hc Hr) as Hcrd.
  eexists. split; [exact Hcrd|].
  pose proof (white_square_parity self c r _ Hc Hr Hcrd) as Hw.
  split; [exact Hw|]. split.
  { intros other crd' H. rewrite Hw.
    apply (white_square_parity other c r); assumption. }
  split.
  { intros img st ws bs Hws Hbs Hget. simpl. rewrite Hcrd. unfold_m.
    rewrite Hw, Hws, Hbs, Hget. destruct (Z.odd (c + r)); reflexivity. }
  unfold _coordinates_of_square, reverse.
  destruct (_reverse self); repeat eexists; reflexivity.
Qed.

(** C6: [_draw_arrow] draws the shaft from [(x0, y0)] to [(x1, y1)] and a
    triangle whose apex is the destination [(x1, y1)]; the centre of the
    base is [(xb, yb)], the source plus 0.8 times the difference; the two
    base vertices are at [(-10, 0)] and [(+10, 0)] from it when the x are
    equal, at [(0, +10)] and [(0, -10)] when the y are equal, and otherwise
    at plus and minus [(8 cos t, 8 sin t)], with [t] the angle
    [atan2(dy, dx)] less 90 degrees. *)
Theorem draw_arrow_geometry (board : Image) (x0 y0 x1 y1 : float)
    (width : Z) (col : color) :
  ((x0 =? x1) && (y0 =? y1))%float = false ->
  let xb := (0.8 * (x1 - x0) + x0)%float in
  let yb := (0.8 * (y1 - y0) + y0)%float in
  exists vtx0 vtx1,
    _draw_arrow board x0 y0 x1 y1 width col
    = ImageDraw_polygon (ImageDraw_line board (x0, y0, x1, y1) col width)
        [vtx0; vtx1; (x1, y1)] col col
    /\ ((x0 =? x1)%float = true ->
        vtx0 = (xb - 10, yb)%float /\ vtx1 = (xb + 10, yb)%float)
    /\ ((y0 =? y1)%float = true ->
        vtx0 = (xb, yb + 10)%float /\ vtx1 = (xb, yb - 10)%float)
    /\ ((x0 =? x1)%float = false -> (y0 =? y1)%float = false ->
        let t := (math_atan2 (y1 - y0) (x1 - x0) - 90 * math_pi / 180)%float in
        vtx0 = (xb + 8 * math_cos t, yb + 8 * math_sin t)%float
        /\ vtx1 = (xb - 8 * math_cos t, yb - 8 * math_sin t)%float).
Proof.
  intros Hne xb yb. unfold _draw_arrow. fold xb yb.
  destruct (x0 =? x1)%float eqn:Hx; destruct (y0 =? y1)%float eqn:Hy;
    simpl in Hne; try discriminate; simpl;
    do 2 eexists; (split; [reflexivity|]);
    repeat split; intros; try discriminate; reflexivity.
Qed.

Lemma has_key_get {V} (d : dict V) (k : string) :
  has_key d k = true -> exists v, dict_get d k = Ok v.
Proof.
  unfold has_key, keys. induction d as [|[k' v] d IH]; simpl; [discriminate|].
  destruct (String.eqb k' k); simpl; eauto.
Qed.

Lemma has_key_keys {V} (d : dict V) (k : string) :
  In k (keys d) <-> has_key d k = true.
Proof.
  unfold has_key. rewrite existsb_exists. split.
  - intros H. exists k. split; [assumption | apply String.eqb_refl].
  - intros (k' & Hin & Heq). apply String.eqb_eq in Heq. subst. assumption.
Qed.

Lemma dict_get_In {V} (d : dict V) (k : string) (v : V) :
  dict_get d k = Ok v -> In (k, v) d.
Proof.
  induction d as [|[k' v'] d IH]; simpl; [discriminate|].
  destruct (String.eqb k' k) eqn:E.
  - apply String.eqb_eq in E. intros [= ->]. left. congruence.
  - auto.
Qed.

Lemma changed_among_filter (ks : list string) (cur previous : snapshot) :
  forallb (has_key cur) ks = true -> forallb (has_key previous) ks = true ->
  changed_among ks cur previous = Ok (List.filter (differs cur previous) ks).
Proof.
  induction ks as [|s ks IH]; simpl; [reflexivity|].
  rewrite !andb_true_iff. intros [Hc Hcs] [Hp Hps].
  destruct (has_key_get _ _ Hc) as [a Ha].
  destruct (has_key_get _ _ Hp) as [b Hb].
  unfold differs at 1. rewrite Ha, Hb, IH by assumption. reflexivity.
Qed.

Lemma forallb_has_key_self {V} (d : dict V) : forallb (has_key d) (keys d) = true.
Proof. apply forallb_forall. intros k. apply has_key_keys. Qed.

Lemma changed_squares_of_list (cur previous : snapshot) :
  keys_within cur previous = true ->
  changed_squares_of cur previous = Ok (changed_list cur previous).
Proof.
  intros H. apply changed_among_filter; [apply forallb_has_key_self | exact H].
Qed.

Lemma filter_sublist {A} (f : A -> bool) (l : list A) : sublist (List.filter f l) l.
Proof.
  induction l as [|a l IH]; simpl; [constructor|].
  destruct (f a); constructor; assumption.
Qed.

Lemma differs_spec (cur previous : snapshot) (s : string) :
  differs cur previous s = true <->
  exists a b, dict_get cur s = Ok a /\ dict_get previous s = Ok b /\ a <> b.
Proof.
  unfold differs. split.
  - destruct (dict_get cur s) as [a|]; [|discriminate].
    destruct (dict_get previous s) as [b|]; [|discriminate].
    rewrite negb_true_iff, String.eqb_neq. eauto.
  - intros (a & b & -> & -> & Hne). apply negb_true_iff, String.eqb_neq, Hne.
Qed.

(** C8: the list of changed squares of a ply holds exactly the keys of the
    current snapshot whose occupant differs from the occupant in the
    previous snapshot, and lists them in the order of the keys of the
    current snapshot. *)
Theorem changed_squares_exact (cur previous : snapshot) :
  keys_within cur previous = true ->
  exists changed_squares,
    changed_squares_of cur previous = Ok changed_squares
    /\ changed_squares = List.filter (differs cur previous) (keys cur)
    /\ sublist changed_squares (keys cur)
    /\ (forall s,
          In s changed_squares <->
          In s (keys cur)
          /\ exists a b,
               dict_get cur s = Ok a /\ dict_get previous s = Ok b /\ a <> b).
Proof.
  intros H. exists (changed_list cur previous).
  split; [apply changed_squares_of_list, H|].
  split; [reflexivity|].
  split; [apply filter_sublist|].
  intros s. unfold changed_list. rewrite filter_In, differs_spec. reflexivity.
Qed.

(** *** The store *)

Lemma lookup_snoc_length (h : store) (img : Image) : (h ++ [img]) !! length h = Some img.
Proof. apply list_lookup_middle. reflexivity. Qed.

Lemma insert_snoc_length (h : store) (img img' : Image) :
  <[length h := img']> (h ++ [img]) = h ++ [img'].
Proof. induction h as [|a h IH]; simpl; [reflexivity | f_equal; exact IH]. Qed.

Lemma insert_snoc_lt (h : store) (r : ref) (img img' : Image) :
  (r < length h)%nat -> <[r := img']> (h ++ [img]) = <[r := img']> h ++ [img].
Proof. intros H. apply insert_app_l, H. Qed.

Lemma Image_copy_eq (r : ref) (img : Image) (h : store) :
  h !! r = Some img -> Image_copy r h = Ok (length h, h ++ [img]).
Proof. intros H. unfold Image_copy, content, alloc. unfold_m. rewrite H. reflexivity. Qed.

Lemma mutate_eq (r : ref) (f : Image -> result Image) (img : Image) (h : store) :
  h !! r = Some img ->
  mutate r f h
  = match f img with Ok img' => Ok (tt, <[r := img']> h) | Raise e => Raise e end.
Proof. intros H. unfold mutate. rewrite H. reflexivity. Qed.

(** *** One ply and the loop, read as functions of the canvas *)

Lemma ply_eq (self : PgnToGifCreator) (board_image : ref) (previous cur : snapshot)
    (frames : list ref) (h : store) (img : Image) :
  h !! board_image = Some img ->
  ply self board_image previous cur frames h
  = match repaint self previous cur img with
    | Raise e => Raise e
    | Ok img' =>
        match frame_of self previous cur img' with
        | Raise e => Raise e
        | Ok frame =>
            Ok (frames ++ [length h], <[board_image := img']> h ++ [frame])
        end
    end.
Proof.
  intros Hb. pose proof (lookup_lt_Some _ _ _ Hb) as Hlt.
  unfold ply, repaint, frame_of. unfold_m.
  destruct (changed_squares_of cur previous) as [changed|e]; [|reflexivity].
  rewrite (mutate_eq _ _ _ _ Hb).
  destruct (_update_board_image self img cur changed) as [img'|e]; [|reflexivity].
  assert (Hb' : <[board_image := img']> h !! board_image = Some img')
    by (apply list_lookup_insert_eq, Hlt).
  rewrite (Image_copy_eq _ _ _ Hb'), length_insert.
  assert (Hc : (<[board_image := img']> h ++ [img']) !! length h = Some img').
  { apply list_lookup_middle. rewrite length_insert. reflexivity. }
  destruct (_arrow self); [|reflexivity].
  destruct (0 <? length changed)%nat; [|reflexivity].
  destruct (arrow_of_move self cur changed) as [[[[x0 y0] x1] y1]|e]; [|reflexivity].
  rewrite (mutate_eq _ _ _ _ Hc).
  replace (length h) with (length (<[board_image := img']> h))
    by apply length_insert.
  rewrite insert_snoc_length, length_insert. reflexivity.
Qed.

Lemma play_from_eq (self : PgnToGifCreator) (board_image : ref)
    (rest : list snapshot) :
  forall (previous : snapshot) (frames : list ref) (h : store) (img : Image),
  h !! board_image = Some img ->
  play_from self board_image previous rest frames h
  = match render self img previous rest with
    | Raise e => Raise e
    | Ok (final, new) =>
        Ok (frames ++ seq (length h) (length rest),
            <[board_image := final]> h ++ new)
    end.
Proof.
  induction rest as [|cur rest IH]; intros previous frames h img Hb.
  - simpl. unfold_m. rewrite app_nil_r, app_nil_r, list_insert_id by exact Hb.
    reflexivity.
  - pose proof (lookup_lt_Some _ _ _ Hb) as Hlt.
    simpl. unfold_m. rewrite (ply_eq _ _ _ _ _ _ _ Hb).
    destruct (repaint self previous cur img) as [img'|e]; [|reflexivity].
    destruct (frame_of self previous cur img') as [frame|e]; [|reflexivity].
    assert (Hb' : (<[board_image := img']> h ++ [frame]) !! board_image = Some img').
    { rewrite lookup_app_l by (rewrite length_insert; exact Hlt).
      apply list_lookup_insert_eq, Hlt. }
    rewrite (IH cur _ _ _ Hb').
    destruct (render self img' cur rest) as [[final new]|e]; [|reflexivity].
    rewrite length_app, length_insert. simpl length.
    rewrite <- app_assoc. simpl.
    replace (length h + 1)%nat with (S (length h)) by lia.
    rewrite insert_snoc_lt by (rewrite length_insert; exact Hlt).
    rewrite list_insert_insert_eq, <- app_assoc. reflexivity.
Qed.

(** The loop in the words of the source: while the game is not finished,
    [next] it and run the body. *)
Lemma play_unfold (self : PgnToGifCreator) (board_image : ref) (game game' : ChessGame)
    (frames : list ref) (h : store) :
  is_finished game = false -> next game = Ok game' ->
  play self board_image game frames h
  = (frames ← ply self board_image (state game) (state game') frames;
     play self board_image game' frames) h.
Proof.
  unfold is_finished, next, play. destruct (upcoming game) as [|cur rest]; [discriminate|].
  intros _ [= <-]. reflexivity.
Qed.

Lemma play_finished (self : PgnToGifCreator) (board_image : ref) (game : ChessGame)
    (frames : list ref) (h : store) :
  is_finished game = true -> play self board_image game frames h = Ok (frames, h).
Proof.
  unfold is_finished, play. destruct (upcoming game); [reflexivity | discriminate].
Qed.

(** *** Well-formed inputs are rendered without an exception *)

Lemma coordinates_valid (self : PgnToGifCreator) (s : string) :
  valid_square s = true -> exists crd, _coordinates_of_square self s = Ok crd.
Proof.
  intros H. apply valid_square_name in H. destruct H as (c & r & Hc & Hr & ->).
  eexists. apply coordinates_of_square_name; assumption.
Qed.

Lemma snapshot_ok_get (pieces : gmap string Image) (st : snapshot) (s : string) :
  snapshot_ok pieces st = true -> In s (keys st) ->
  valid_square s = true
  /\ exists p, dict_get st s = Ok p /\ sprite_ok pieces p = true.
Proof.
  intros Hok Hin. apply has_key_keys, has_key_get in Hin. destruct Hin as [p Hp].
  unfold snapshot_ok in Hok. rewrite forallb_forall in Hok.
  specialize (Hok _ (dict_get_In _ _ _ Hp)). simpl in Hok.
  apply andb_true_iff in Hok. destruct Hok. eauto.
Qed.

Lemma pieces_get_ok (pieces : gmap string Image) (p : string) :
  sprite_ok pieces p = true -> truthy p = true ->
  exists img, pieces_get pieces p = Ok img.
Proof.
  unfold sprite_ok, pieces_get. intros H Ht. rewrite Ht in H. simpl in H.
  destruct (pieces !! p); [eauto | discriminate].
Qed.

Lemma update_board_image_ok (self : PgnToGifCreator) (st : snapshot)
    (changed : list string) :
  forall img : Image,
  is_Some (_ws self) -> is_Some (_bs self) ->
  snapshot_ok (_pieces self) st = true ->
  (forall s, In s changed -> In s (keys st)) ->
  exists img',
    _update_board_image self img st changed = Ok img'
    /\ drawn_on img' = drawn_on img.
Proof.
  induction changed as [|s changed IH]; intros img [ws Hws] [bs Hbs] Hok Hin.
  - exists img. split; reflexivity.
  - destruct (snapshot_ok_get _ _ s Hok) as (Hv & p & Hp & Hsp); [apply Hin; left; reflexivity|].
    destruct (coordinates_valid self s Hv) as [crd Hcrd].
    simpl. rewrite Hcrd. unfold_m. rewrite Hws, Hbs, Hp.
    assert (Hin' : forall s', In s' changed -> In s' (keys st))
      by (intros s' H'; apply Hin; right; exact H').
    destruct (truthy p) eqn:Ht.
    + destruct (pieces_get_ok _ _ Hsp Ht) as [sprite Hsprite]. rewrite Hsprite.
      destruct (white_square crd); simpl.
      * destruct (IH (Image_paste (Image_paste img ws crd ws) sprite crd sprite))
          as (img' & Himg' & Hd); eauto.
      * destruct (IH (Image_paste (Image_paste img bs crd bs) sprite crd sprite))
          as (img' & Himg' & Hd); eauto.
    + destruct (white_square crd); simpl.
      * destruct (IH (Image_paste img ws crd ws)) as (img' & Himg' & Hd); eauto.
      * destruct (IH (Image_paste img bs crd bs)) as (img' & Himg' & Hd); eauto.
Qed.

Lemma changed_list_keys (cur previous : snapshot) (s : string) :
  In s (changed_list cur previous) -> In s (keys cur).
Proof. unfold changed_list. rewrite filter_In. tauto. Qed.

Lemma arrow_of_move_eq (self : PgnToGifCreator) (cur : snapshot)
    (s0 s1 : string) (rest : list string) (p1 : string) (c0 c1 : Z * Z) :
  dict_get cur s1 = Ok p1 ->
  _coordinates_of_square self s0 = Ok c0 ->
  _coordinates_of_square self s1 = Ok c1 ->
  arrow_of_move self cur (s0 :: s1 :: rest)
  = Ok (if truthy p1
        then ((centre c0).1, (centre c0).2, (centre c1).1, (centre c1).2)
        else ((centre c1).1, (centre c1).2, (centre c0).1, (centre c0).2)).
Proof.
  intros Hp H0 H1. unfold arrow_of_move. unfold_m. simpl. rewrite Hp.
  destruct (truthy p1); simpl; rewrite ?H0, ?H1; simpl; rewrite ?H0, ?H1; reflexivity.
Qed.

Lemma arrow_of_move_one (self : PgnToGifCreator) (cur : snapshot) (s0 : string) :
  arrow_of_move self cur [s0] = Raise IndexError.
Proof. reflexivity. Qed.

Lemma arrow_of_move_ok (self : PgnToGifCreator) (cur : snapshot)
    (changed : list string) :
  snapshot_ok (_pieces self) cur = true ->
  (forall s, In s changed -> In s (keys cur)) ->
  (2 <= length changed)%nat ->
  exists xy, arrow_of_move self cur changed = Ok xy.
Proof.
  intros Hok Hin Hlen. destruct changed as [|s0 [|s1 rest]]; simpl in Hlen; try lia.
  destruct (snapshot_ok_get _ _ s0 Hok) as (Hv0 & _); [apply Hin; simpl; auto|].
  destruct (snapshot_ok_get _ _ s1 Hok) as (Hv1 & p1 & Hp1 & _); [apply Hin; simpl; auto|].
  destruct (coordinates_valid self s0 Hv0) as [c0 H0].
  destruct (coordinates_valid self s1 Hv1) as [c1 H1].
  rewrite (arrow_of_move_eq _ _ _ _ _ _ _ _ Hp1 H0 H1). eauto.
Qed.

Lemma repaint_ok (self : PgnToGifCreator) (previous cur : snapshot) (img : Image) :
  is_Some (_ws self) -> is_Some (_bs self) ->
  snapshot_ok (_pieces self) cur = true -> keys_within cur previous = true ->
  exists img',
    repaint self previous cur img = Ok img' /\ drawn_on img' = drawn_on img.
Proof.
  intros Hws Hbs Hok Hk. unfold repaint.
  rewrite (changed_squares_of_list _ _ Hk). unfold_m.
  apply update_board_image_ok; auto. apply changed_list_keys.
Qed.

Lemma frame_of_ok (self : PgnToGifCreator) (previous cur : snapshot) (img : Image) :
  snapshot_ok (_pieces self) cur = true -> keys_within cur previous = true ->
  (_arrow self = true -> length (changed_list cur previous) <> 1%nat) ->
  exists frame, frame_of self previous cur img = Ok frame.
Proof.
  intros Hok Hk Hsafe. unfold frame_of.
  rewrite (changed_squares_of_list _ _ Hk). unfold_m.
  destruct (_arrow self); [|eauto].
  destruct (0 <? length (changed_list cur previous))%nat eqn:Hlen; [|eauto].
  apply Nat.ltb_lt in Hlen.
  destruct (arrow_of_move_ok self cur (changed_list cur previous) Hok)
    as [[[[x0 y0] x1] y1] ->]; [apply changed_list_keys | |eauto].
  specialize (Hsafe eq_refl). lia.
Qed.

Lemma frame_of_one_change (self : PgnToGifCreator) (previous cur : snapshot)
    (img : Image) :
  keys_within cur previous = true -> _arrow self = true ->
  length (changed_list cur previous) = 1%nat ->
  frame_of self previous cur img = Raise IndexError.
Proof.
  intros Hk Ha Hlen. unfold frame_of.
  rewrite (changed_squares_of_list _ _ Hk). unfold_m. rewrite Ha, Hlen.
  destruct (changed_list cur previous) as [|s0 [|s1 rest]]; try discriminate.
  reflexivity.
Qed.

Lemma render_ok (self : PgnToGifCreator) (rest : list snapshot) :
  forall (previous : snapshot) (img : Image),
  is_Some (_ws self) -> is_Some (_bs self) ->
  plies_wf (_pieces self) previous rest = true ->
  (_arrow self = true -> arrow_safe previous rest = true) ->
  exists final frames,
    render self img previous rest = Ok (final, frames)
    /\ length frames = length rest
    /\ drawn_on final = drawn_on img.
Proof.
  induction rest as [|cur rest IH]; intros previous img Hws Hbs Hwf Hsafe.
  - exists img, []. repeat split.
  - simpl in Hwf. rewrite !andb_true_iff in Hwf. destruct Hwf as [[Hok Hk] Hwf].
    assert (Hs : _arrow self = true ->
                 length (changed_list cur previous) <> 1%nat
                 /\ arrow_safe cur rest = true).
    { intros Ha. specialize (Hsafe Ha). simpl in Hsafe.
      apply andb_true_iff in Hsafe. destruct Hsafe as [H1 H2].
      apply negb_true_iff, Nat.eqb_neq in H1. auto. }
    destruct (repaint_ok self previous cur img Hws Hbs Hok Hk) as (img' & Hr & Hd).
    destruct (frame_of_ok self previous cur img' Hok Hk) as [frame Hf];
      [intros Ha; apply Hs, Ha|].
    destruct (IH cur img' Hws Hbs Hwf) as (final & frames & Hrender & Hlen & Hd');
      [intros Ha; apply Hs, Ha|].
    exists final, (frame :: frames). simpl. unfold_m.
    rewrite Hr, Hf, Hrender. repeat split; [simpl; lia | congruence].
Qed.

Lemma render_one_change (self : PgnToGifCreator) (rest : list snapshot) :
  forall (previous : snapshot) (img : Image),
  is_Some (_ws self) -> is_Some (_bs self) ->
  plies_wf (_pieces self) previous rest = true ->
  _arrow self = true -> arrow_safe previous rest = false ->
  render self img previous rest = Raise IndexError.
Proof.
  induction rest as [|cur rest IH]; intros previous img Hws Hbs Hwf Ha Hunsafe.
  - discriminate.
  - simpl in Hwf. rewrite !andb_true_iff in Hwf. destruct Hwf as [[Hok Hk] Hwf].
    destruct (repaint_ok self previous cur img Hws Hbs Hok Hk) as (img' & Hr & Hd).
    simpl. unfold_m. rewrite Hr.
    destruct (Nat.eqb (length (changed_list cur previous)) 1) eqn:Hone.
    + apply Nat.eqb_eq in Hone.
      rewrite (frame_of_one_change _ _ _ _ Hk Ha Hone). reflexivity.
    + simpl in Hunsafe. rewrite Hone in Hunsafe. simpl in Hunsafe.
      apply Nat.eqb_neq in Hone.
      destruct (frame_of_ok self previous cur img' Hok Hk) as [frame Hf];
        [intros _; exact Hone|].
      rewrite Hf, (IH cur img' Hws Hbs Hwf Ha Hunsafe). reflexivity.
Qed.

Lemma render_length (self : PgnToGifCreator) (rest : list snapshot) :
  forall (previous : snapshot) (img final : Image) (frames : list Image),
  render self img previous rest = Ok (final, frames) -> length frames = length rest.
Proof.
  induction rest as [|cur rest IH]; intros previous img final frames; simpl; unfold_m.
  - intros [= <- <-]. reflexivity.
  - destruct (repaint self previous cur img) as [img'|]; [|discriminate].
    destruct (frame_of self previous cur img') as [frame|]; [|discriminate].
    destruct (render self img' cur rest) as [[final' frames']|] eqn:Hr; [|discriminate].
    intros [= <- <-]. simpl. f_equal. eapply IH, Hr.
Qed.

(** *** [_draw_board] and [create_gif] *)

Lemma update_board_image_ext (a b : PgnToGifCreator) (st : snapshot)
    (changed : list string) :
  _reverse a = _reverse b -> _ws a = _ws b -> _bs a = _bs b ->
  _pieces a = _pieces b ->
  forall img, _update_board_image a img st changed = _update_board_image b img st changed.
Proof.
  intros Hr Hw Hb Hp. induction changed as [|s changed IH]; intros img; [reflexivity|].
  simpl. unfold _coordinates_of_square, reverse. rewrite Hr, Hw, Hb, Hp. unfold_m.
  destruct (str_index s 0); [|reflexivity].
  destruct (str_index s 1); [|reflexivity].
  destruct (int_of_char a1); [|reflexivity].
  destruct (_reverse b);
    (match goal with |- context [white_square ?c] => destruct (white_square c) end);
    (destruct (_ws b); [|try reflexivity]); (destruct (_bs b); [|try reflexivity]);
    (destruct (dict_get st s) as [p|]; [|reflexivity]);
    (destruct (truthy p); [destruct (pieces_get (_pieces b) p); [|reflexivity]|]);
    apply IH.
Qed.

Lemma draw_board_eq (self : PgnToGifCreator) (h : store) :
  _draw_board self h
  = match initial_canvas self with
    | Ok img => Ok (redrawn self (length h), h ++ [img])
    | Raise e => Raise e
    end.
Proof.
  unfold _draw_board, alloc. unfold_m.
  rewrite (mutate_eq _ _ _ _ (lookup_snoc_length h _)).
  unfold initial_canvas.
  match goal with
  | |- context [_update_board_image ?a ?img ?st ?ch] =>
      rewrite (update_board_image_ext a (redrawn self 0%nat) st ch
                 eq_refl eq_refl eq_refl eq_refl img)
  end.
  destruct (_update_board_image (redrawn self 0%nat) _ _ _) as [img|e]; [|reflexivity].
  rewrite insert_snoc_length. reflexivity.
Qed.

Lemma insert_middle (h : store) (img img' : Image) (t : list Image) :
  <[length h := img']> (h ++ img :: t) = h ++ img' :: t.
Proof. induction h as [|a h IH]; simpl; [reflexivity | f_equal; exact IH]. Qed.

Lemma lookup_after (h : store) (img : Image) (t : list Image) (i : nat) :
  (h ++ img :: t) !! (S (length h) + i)%nat = t !! i.
Proof.
  rewrite lookup_app_r by lia.
  replace (S (length h) + i - length h)%nat with (S i) by lia. reflexivity.
Qed.

Lemma last_index (a n : nat) :
  list_index (seq a (S n)) (length (seq a (S n)) - 1) = Ok (a + n)%nat.
Proof.
  unfold list_index. rewrite length_seq.
  replace (S n - 1)%nat with n by lia.
  assert (H : seq a (S n) !! n = Some (a + n)%nat) by (apply lookup_seq; lia).
  rewrite H. reflexivity.
Qed.

(** [create_gif] up to the held frames, once the initial canvas is there:
    the live canvas is a new object, the frames are the objects that follow
    it, one for the initial position and one per ply, and the last of them
    is held three times. *)
Lemma create_gif_frames_eq (self self1 : PgnToGifCreator) (pgn : string)
    (h h1 : store) (r : ref) (img0 : Image) (game : ChessGame) :
  (if _should_redraw self then _draw_board self else mret self) h = Ok (self1, h1) ->
  _initial_board self1 = Some r -> h1 !! r = Some img0 ->
  ChessGame_load pgn = Ok game ->
  create_gif_frames self pgn h
  = match render self1 img0 (state game) (upcoming game) with
    | Raise e => Raise e
    | Ok (final, frames) =>
        Ok ((self1, length h1,
             seq (S (length h1)) (S (plies game))
             ++ replicate 3 (S (length h1) + plies game)%nat),
            h1 ++ final :: img0 :: frames)
    end.
Proof.
  intros Hdraw Hib Hr Hload. unfold create_gif_frames. unfold_m.
  rewrite Hdraw, Hib. simpl. rewrite (Image_copy_eq _ _ _ Hr).
  rewrite (Image_copy_eq _ _ _ (lookup_snoc_length h1 img0)).
  rewrite Hload. unfold play.
  assert (Hb : ((h1 ++ [img0]) ++ [img0]) !! length h1 = Some img0).
  { rewrite <- app_assoc. apply list_lookup_middle. reflexivity. }
  rewrite (play_from_eq _ _ _ _ _ _ _ Hb).
  destruct (render self1 img0 (state game) (upcoming game)) as [[final frames]|e];
    [|reflexivity].
  rewrite !length_app. simpl length.
  replace (length h1 + 1 + 1)%nat with (S (S (length h1))) by lia.
  replace (length h1 + 1)%nat with (S (length h1)) by lia.
  change ([S (length h1)] ++ seq (S (S (length h1))) (length (upcoming game)))
    with (seq (S (length h1)) (S (plies game))).
  rewrite last_index. rewrite <- !app_assoc. simpl app.
  rewrite insert_middle, <- app_assoc. reflexivity.
Qed.

Lemma contents_app (rs1 rs2 : list ref) (imgs1 imgs2 : list Image) (h : store) :
  contents rs1 h = Ok (imgs1, h) -> contents rs2 h = Ok (imgs2, h) ->
  contents (rs1 ++ rs2) h = Ok (imgs1 ++ imgs2, h).
Proof.
  revert imgs1. induction rs1 as [|r rs1 IH]; intros imgs1; simpl; unfold_m.
  - intros [= <-] H. exact H.
  - unfold content. destruct (h !! r) as [img|]; [|discriminate].
    destruct (contents rs1 h) as [[imgs h']|] eqn:Hc; [|discriminate].
    intros [= <- ->] H2. rewrite (IH imgs eq_refl H2). reflexivity.
Qed.

Lemma contents_seq (imgs : list Image) (h : store) :
  forall base : nat,
  (forall i img, imgs !! i = Some img -> h !! (base + i)%nat = Some img) ->
  contents (seq base (length imgs)) h = Ok (imgs, h).
Proof.
  induction imgs as [|img imgs IH]; intros base H; simpl; unfold_m; [reflexivity|].
  unfold content. pose proof (H 0%nat img eq_refl) as H0.
  rewrite Nat.add_0_r in H0. rewrite H0.
  rewrite (IH (S base)); [reflexivity|].
  intros i img' Hi. replace (S base + i)%nat with (base + S i)%nat by lia.
  apply H. exact Hi.
Qed.

Lemma contents_replicate (n : nat) (r : ref) (img : Image) (h : store) :
  h !! r = Some img -> contents (replicate n r) h = Ok (replicate n img, h).
Proof.
  intros H. induction n as [|n IH]; simpl; unfold_m; [reflexivity|].
  unfold content. rewrite H, IH. reflexivity.
Qed.

Lemma last_default (a : Image) (l : list Image) (d d' : Image) :
  List.last (a :: l) d = List.last (a :: l) d'.
Proof.
  revert a. induction l as [|b l IH]; intros a; [reflexivity|].
  change (List.last (b :: l) d = List.last (b :: l) d'). apply IH.
Qed.

Lemma last_cons_lookup (img0 : Image) (frames : list Image) :
  (img0 :: frames) !! length frames = Some (List.last frames img0).
Proof.
  revert img0. induction frames as [|f frames IH]; intros img0; [reflexivity|].
  simpl length. change ((img0 :: f :: frames) !! S (length frames))
    with ((f :: frames) !! length frames).
  rewrite IH. f_equal. destruct frames as [|g frames]; [reflexivity|].
  change (List.last (g :: frames) f = List.last (g :: frames) img0).
  apply last_default.
Qed.

Lemma create_gif_eq (self self1 : PgnToGifCreator) (pgn : string)
    (out_path : option string) (h h1 : store) (r : ref) (img0 final : Image)
    (frames : list Image) (game : ChessGame) (ms : Z) :
  (if _should_redraw self then _draw_board self else mret self) h = Ok (self1, h1) ->
  _initial_board self1 = Some r -> h1 !! r = Some img0 ->
  ChessGame_load pgn = Ok game ->
  render self1 img0 (state game) (upcoming game) = Ok (final, frames) ->
  int_of_float (duration self1 * 1000)%float = Ok ms ->
  create_gif self pgn out_path h
  = Ok ((self1,
         {| gif_path := save_path pgn out_path;
            gif_images := (img0 :: frames) ++ replicate 3 (List.last frames img0);
            gif_duration := ms; gif_loop := 0; gif_optimize := true |}),
        h1 ++ final :: img0 :: frames).
Proof.
  intros Hdraw Hib Hr Hload Hrender Hms. unfold create_gif.
  unfold mbind at 1. unfold M_bind.
  rewrite (create_gif_frames_eq _ _ _ _ _ _ _ _ Hdraw Hib Hr Hload), Hrender.
  pose proof (render_length _ _ _ _ _ _ Hrender) as Hlen.
  unfold plies. rewrite <- Hlen.
  set (hf := h1 ++ final :: img0 :: frames).
  set (core := seq (S (length h1)) (S (length frames))).
  assert (Hcore : contents core hf = Ok (img0 :: frames, hf)).
  { apply (contents_seq (img0 :: frames)). intros i img Hi.
    unfold hf. rewrite lookup_after. exact Hi. }
  assert (Hlast : hf !! (S (length h1) + length frames)%nat
                  = Some (List.last frames img0)).
  { unfold hf. rewrite lookup_after. apply last_cons_lookup. }
  unfold_m.
  match goal with
  | |- context [list_index ?l 0] =>
      change (list_index l 0) with (@Ok nat (S (length h1)))
  end.
  cbv iota beta. rewrite Hms.
  match goal with
  | |- context [contents (?a :: drop 1 ?l) _] => change (a :: drop 1 l) with l
  end.
  rewrite (contents_app _ _ _ _ _ Hcore (contents_replicate 3 _ _ _ Hlast)).
  reflexivity.
Qed.

Lemma prepared_pieces (self : PgnToGifCreator) (r : ref) :
  _pieces (prepared self r) = sprites self.
Proof. unfold sprites, prepared. destruct (_should_redraw self); reflexivity. Qed.

Lemma prepared_arrow (self : PgnToGifCreator) (r : ref) :
  _arrow (prepared self r) = _arrow self.
Proof. unfold prepared. destruct (_should_redraw self); reflexivity. Qed.

Lemma prepared_duration (self : PgnToGifCreator) (r : ref) :
  duration (prepared self r) = duration self.
Proof. unfold prepared. destruct (_should_redraw self); reflexivity. Qed.

Lemma prepared_should_redraw (self : PgnToGifCreator) (r : ref) :
  _should_redraw (prepared self r) = false.
Proof. unfold prepared. destruct (_should_redraw self) eqn:E; [reflexivity | exact E]. Qed.

(** The first statement of [create_gif]: afterwards the instance has an
    initial canvas, on which nothing was drawn. *)
Lemma prepare_ok (self : PgnToGifCreator) (h : store) :
  ready self h = true -> drawable self = true ->
  exists (img0 : Image) (r : ref),
    let self1 := prepared self (length h) in
    let h1 := if _should_redraw self then h ++ [img0] else h in
    (if _should_redraw self then _draw_board self else mret self) h = Ok (self1, h1)
    /\ _initial_board self1 = Some r /\ h1 !! r = Some img0
    /\ (r <= length h)%nat
    /\ drawn_on img0 = false
    /\ is_Some (_ws self1) /\ is_Some (_bs self1)
    /\ (_should_redraw self = true -> initial_canvas self = Ok img0 /\ r = length h).
Proof.
  unfold ready, drawable, prepared, sprites, prepared.
  destruct (_should_redraw self) eqn:Hre; simpl; intros Hready Hdraw.
  - destruct (update_board_image_ok (redrawn self 0%nat) INITIAL_STATE
                (keys INITIAL_STATE)
                (Image_new "RGBA" (_BOARD_SIZE, _BOARD_SIZE) None))
      as (img0 & Hcanvas & Hd); [simpl; eauto | simpl; eauto | exact Hdraw | auto |].
    exists img0, (length h). rewrite draw_board_eq. unfold initial_canvas.
    rewrite Hcanvas. simpl.
    repeat split; eauto using lookup_snoc_length.
  - destruct (_initial_board self) as [r|] eqn:Hib; [|discriminate].
    destruct (_ws self) as [ws|] eqn:Hws; [|discriminate].
    destruct (_bs self) as [bs|] eqn:Hbs; [|discriminate].
    destruct (h !! r) as [img0|] eqn:Hr; [|discriminate].
    exists img0, r. unfold_m.
    repeat split; eauto.
    + apply Nat.lt_le_incl. eapply lookup_lt_Some, Hr.
    + apply negb_true_iff, Hready.
    + discriminate.
    + discriminate.
Qed.

(** Every step of [create_gif] up to the save succeeds on a well-formed
    game. *)
Lemma render_prepared (self : PgnToGifCreator) (h : store) (game : ChessGame) :
  ready self h = true -> drawable self = true ->
  plies_wf (sprites self) (state game) (upcoming game) = true ->
  (_arrow self = true -> arrow_safe (state game) (upcoming game) = true) ->
  exists (img0 : Image) (r : ref) (final : Image) (frames : list Image),
    let self1 := prepared self (length h) in
    let h1 := if _should_redraw self then h ++ [img0] else h in
    (if _should_redraw self then _draw_board self else mret self) h = Ok (self1, h1)
    /\ _initial_board self1 = Some r /\ h1 !! r = Some img0
    /\ (r <= length h)%nat
    /\ drawn_on img0 = false
    /\ (_should_redraw self = true -> initial_canvas self = Ok img0 /\ r = length h)
    /\ render self1 img0 (state game) (upcoming game) = Ok (final, frames)
    /\ length frames = plies game
    /\ drawn_on final = false.
Proof.
  intros Hready Hdraw Hwf Hsafe.
  destruct (prepare_ok self h Hready Hdraw)
    as (img0 & r & Hprep & Hib & Hr & Hle & Hd & Hws & Hbs & Hinit).
  destruct (render_ok (prepared self (length h)) (upcoming game) (state game) img0)
    as (final & frames & Hrender & Hlen & Hd'); auto.
  - rewrite prepared_pieces. exact Hwf.
  - rewrite prepared_arrow. exact Hsafe.
  - exists img0, r, final, frames. cbv zeta. repeat split; auto; try apply Hinit; auto.
    congruence.
Qed.

Lemma game_ok_split (self : PgnToGifCreator) (game : ChessGame) :
  game_ok self game = true ->
  plies_wf (sprites self) (state game) (upcoming game) = true
  /\ (_arrow self = true -> arrow_safe (state game) (upcoming game) = true).
Proof.
  unfold game_ok. rewrite andb_true_iff, orb_true_iff, negb_true_iff.
  intros [Hwf [Ha|Hs]]; split; auto. intros H. congruence.
Qed.

Lemma last_seq (a n d : nat) : List.last (seq a (S n)) d = (a + n)%nat.
Proof.
  revert a. induction n as [|n IH]; intros a; [simpl; lia|].
  change (List.last (seq a (S (S n))) d) with (List.last (seq (S a) (S n)) d).
  rewrite IH. lia.
Qed.

Lemma Forall2_seq_lookup (imgs : list Image) (h : store) :
  forall base : nat,
  (forall i img, imgs !! i = Some img -> h !! (base + i)%nat = Some img) ->
  Forall2 (fun r img => h !! r = Some img) (seq base (length imgs)) imgs.
Proof.
  induction imgs as [|img imgs IH]; intros base H; simpl; constructor.
  - rewrite <- (Nat.add_0_r base). apply H. reflexivity.
  - apply IH. intros i img' Hi.
    replace (S base + i)%nat with (base + S i)%nat by lia. apply H, Hi.
Qed.

(** C1: for a game of N plies [create_gif] saves N+4 images: the initial
    frame, then one frame per ply in ply order, that is N+1 core frames,
    then three more times the last of them.  The list [frames] of the
    method has the same shape: N+1 distinct objects, then three times the
    last one. *)
Theorem create_gif_frame_count (self : PgnToGifCreator) (pgn : string)
    (out_path : option string) (h : store) (game : ChessGame) (ms : Z) :
  ready self h = true -> drawable self = true ->
  ChessGame_load pgn = Ok game -> game_ok self game = true ->
  int_of_float (duration self * 1000)%float = Ok ms ->
  exists (self' : PgnToGifCreator) (gif : GifFile) (h' : store)
         (first final : Image) (core : list Image)
         (board_image : ref) (refs : list ref),
    create_gif self pgn out_path h = Ok ((self', gif), h')
    /\ render self' first (state game) (upcoming game) = Ok (final, core)
    /\ length (first :: core) = (plies game + 1)%nat
    /\ gif_images gif = (first :: core) ++ replicate 3 (List.last core first)
    /\ length (gif_images gif) = (plies game + 4)%nat
    /\ create_gif_frames self pgn h
       = Ok ((self', board_image, refs ++ replicate 3 (List.last refs 0%nat)), h')
    /\ length refs = (plies game + 1)%nat
    /\ NoDup refs
    /\ Forall2 (fun r img => h' !! r = Some img) refs (first :: core).
Proof.
  intros Hready Hdraw Hload Hgame Hms.
  destruct (game_ok_split _ _ Hgame) as [Hwf Hsafe].
  destruct (render_prepared self h game Hready Hdraw Hwf Hsafe)
    as (img0 & r & final & frames & Hprep & Hib & Hr & _ & _ & _ & Hrender & Hlen & _).
  cbv zeta in Hprep, Hib, Hr, Hrender.
  set (self1 := prepared self (length h)) in *.
  set (h1 := if _should_redraw self then h ++ [img0] else h) in *.
  assert (Hms1 : int_of_float (duration self1 * 1000)%float = Ok ms)
    by (unfold self1; rewrite prepared_duration; exact Hms).
  eexists self1, _, (h1 ++ final :: img0 :: frames), img0, final, frames,
    (length h1), (seq (S (length h1)) (S (plies game))).
  split; [apply (create_gif_eq _ _ _ _ _ _ _ _ _ _ _ _ Hprep Hib Hr Hload Hrender Hms1)|].
  split; [exact Hrender|].
  split; [simpl; lia|].
  split; [reflexivity|].
  split; [simpl; rewrite length_app; simpl; lia|].
  split.
  { rewrite (create_gif_frames_eq _ _ _ _ _ _ _ _ Hprep Hib Hr Hload), Hrender.
    rewrite last_seq. reflexivity. }
  split; [rewrite length_seq; lia|].
  split; [apply NoDup_seq|].
  rewrite <- Hlen.
  apply (Forall2_seq_lookup (img0 :: frames)). intros i img Hi.
  rewrite lookup_after. exact Hi.
Qed.

(** C2, as the code has it: for a snapshot source that is finished from
    the start, [create_gif] raises nothing; it saves four images, the
    initial frame and its three held copies. *)
Theorem create_gif_no_ply (self : PgnToGifCreator) (pgn : string)
    (out_path : option string) (h : store) (game : ChessGame) (ms : Z) :
  ready self h = true -> drawable self = true ->
  ChessGame_load pgn = Ok game -> is_finished game = true ->
  int_of_float (duration self * 1000)%float = Ok ms ->
  exists (self' : PgnToGifCreator) (gif : GifFile) (h' : store) (first : Image),
    create_gif self pgn out_path h = Ok ((self', gif), h')
    /\ gif_images gif = [first; first; first; first]
    /\ drawn_on first = false
    /\ (_should_redraw self = true -> initial_canvas self = Ok first).
Proof.
  intros Hready Hdraw Hload Hfin Hms.
  assert (Hup : upcoming game = []).
  { unfold is_finished in Hfin. destruct (upcoming game); [reflexivity | discriminate]. }
  destruct (prepare_ok self h Hready Hdraw)
    as (img0 & r & Hprep & Hib & Hr & _ & Hd & _ & _ & Hinit).
  cbv zeta in Hprep, Hib, Hr.
  assert (Hrender : render (prepared self (length h)) img0 (state game) (upcoming game)
                    = Ok (img0, [])) by (rewrite Hup; reflexivity).
  assert (Hms1 : int_of_float (duration (prepared self (length h)) * 1000)%float = Ok ms)
    by (rewrite prepared_duration; exact Hms).
  do 3 eexists. exists img0.
  split; [apply (create_gif_eq _ _ _ _ _ _ _ _ _ _ _ _ Hprep Hib Hr Hload Hrender Hms1)|].
  split; [reflexivity|]. split; [exact Hd|]. intros H. apply Hinit, H.
Qed.

(** C10: with the arrow overlay enabled, the guard of the arrow branch lets
    a list of one changed square through and the branch then reads its
    second element: as soon as one ply of the game changes exactly one
    square, [create_gif] fails with [IndexError]; when no ply does, the frames
    are produced. *)
Theorem arrow_one_change_index_error (self : PgnToGifCreator) (pgn : string)
    (out_path : option string) (h : store) (game : ChessGame) :
  _arrow self = true ->
  ready self h = true -> drawable self = true ->
  ChessGame_load pgn = Ok game ->
  plies_wf (sprites self) (state game) (upcoming game) = true ->
  (arrow_safe (state game) (upcoming game) = false ->
   create_gif_frames self pgn h = Raise IndexError
   /\ create_gif self pgn out_path h = Raise IndexError)
  /\ (arrow_safe (state game) (upcoming game) = true ->
      exists res, create_gif_frames self pgn h = Ok res).
Proof.
  intros Ha Hready Hdraw Hload Hwf. split.
  - intros Hunsafe.
    destruct (prepare_ok self h Hready Hdraw)
      as (img0 & r & Hprep & Hib & Hr & _ & _ & Hws & Hbs & _).
    cbv zeta in Hprep, Hib, Hr, Hws, Hbs.
    assert (Hrender : render (prepared self (length h)) img0 (state game) (upcoming game)
                      = Raise IndexError).
    { apply render_one_change; auto.
      - rewrite prepared_pieces. exact Hwf.
      - rewrite prepared_arrow. exact Ha. }
    assert (Hframes : create_gif_frames self pgn h = Raise IndexError).
    { rewrite (create_gif_frames_eq _ _ _ _ _ _ _ _ Hprep Hib Hr Hload), Hrender.
      reflexivity. }
    split; [exact Hframes|].
    unfold create_gif. unfold mbind at 1. unfold M_bind. rewrite Hframes. reflexivity.
  - intros Hsafe.
    destruct (render_prepared self h game Hready Hdraw Hwf (fun _ => Hsafe))
      as (img0 & r & final & frames & Hprep & Hib & Hr & _ & _ & _ & Hrender & _).
    cbv zeta in Hprep, Hib, Hr, Hrender.
    rewrite (create_gif_frames_eq _ _ _ _ _ _ _ _ Hprep Hib Hr Hload), Hrender.
    eauto.
Qed.

Lemma update_board_image_drawn (self : PgnToGifCreator) (st : snapshot)
    (changed : list string) :
  forall img img' : Image,
  _update_board_image self img st changed = Ok img' -> drawn_on img' = drawn_on img.
Proof.
  induction changed as [|s changed IH]; intros img img'; simpl; unfold_m.
  - intros [= <-]. reflexivity.
  - destruct (_coordinates_of_square self s) as [crd|]; [|discriminate].
    destruct (if white_square crd then attr (_ws self) else attr (_bs self))
      as [tile|]; [|discriminate].
    destruct (dict_get st s) as [p|]; [|discriminate].
    destruct (truthy p).
    + destruct (pieces_get (_pieces self) p) as [sprite|]; [|discriminate].
      intros H. apply IH in H. exact H.
    + intros H. apply IH in H. exact H.
Qed.

Lemma repaint_drawn (self : PgnToGifCreator) (previous cur : snapshot)
    (img img' : Image) :
  repaint self previous cur img = Ok img' -> drawn_on img' = drawn_on img.
Proof.
  unfold repaint. unfold_m.
  destruct (changed_squares_of cur previous); [|discriminate].
  apply update_board_image_drawn.
Qed.

Lemma repaints_drawn (self : PgnToGifCreator) (rest : list snapshot) :
  forall (previous : snapshot) (img : Image) (canvases : list Image),
  repaints self img previous rest = Ok canvases ->
  Forall (fun canvas => drawn_on canvas = drawn_on img) canvases.
Proof.
  induction rest as [|cur rest IH]; intros previous img canvases; simpl; unfold_m.
  - intros [= <-]. constructor.
  - destruct (repaint self previous cur img) as [img'|] eqn:Hr; [|discriminate].
    destruct (repaints self img' cur rest) as [canvases'|] eqn:Hrs; [|discriminate].
    intros [= <-]. apply repaint_drawn in Hr. constructor; [exact Hr|].
    apply IH in Hrs. rewrite <- Hr. exact Hrs.
Qed.

Lemma frame_of_captured (self : PgnToGifCreator) (previous cur : snapshot)
    (img frame : Image) :
  frame_of self previous cur img = Ok frame -> captured self img frame.
Proof.
  unfold frame_of, captured. unfold_m.
  destruct (changed_squares_of cur previous) as [changed|]; [|discriminate].
  destruct (_arrow self); [|intros [= <-]; left; reflexivity].
  destruct (0 <? length changed)%nat; [|intros [= <-]; left; reflexivity].
  destruct (arrow_of_move self cur changed) as [[[[x0 y0] x1] y1]|]; [|discriminate].
  intros [= <-]. right. split; [reflexivity|]. eauto.
Qed.

Lemma frame_of_no_arrow (self : PgnToGifCreator) (previous cur : snapshot)
    (img frame : Image) :
  _arrow self = false -> frame_of self previous cur img = Ok frame -> frame = img.
Proof.
  intros Ha. unfold frame_of. unfold_m. rewrite Ha.
  destruct (changed_squares_of cur previous); [|discriminate].
  intros [= <-]. reflexivity.
Qed.

Lemma last_cons_default (a : Image) (l : list Image) (d : Image) :
  List.last (a :: l) d = List.last l a.
Proof. destruct l as [|b l]; [reflexivity | exact (last_default b l d a)]. Qed.

Lemma render_repaints (self : PgnToGifCreator) (rest : list snapshot) :
  forall (previous : snapshot) (img final : Image) (frames : list Image),
  render self img previous rest = Ok (final, frames) ->
  exists canvases,
    repaints self img previous rest = Ok canvases
    /\ final = List.last canvases img
    /\ Forall2 (captured self) canvases frames
    /\ (_arrow self = false -> frames = canvases).
Proof.
  induction rest as [|cur rest IH]; intros previous img final frames; simpl; unfold_m.
  - intros [= <- <-]. exists []. repeat split; constructor.
  - destruct (repaint self previous cur img) as [img'|]; [|discriminate].
    destruct (frame_of self previous cur img') as [frame|] eqn:Hf; [|discriminate].
    destruct (render self img' cur rest) as [[final' frames']|] eqn:Hr; [|discriminate].
    intros [= <- <-].
    destruct (IH _ _ _ _ Hr) as (canvases & -> & Hfinal & Hcap & Hno).
    exists (img' :: canvases). split; [reflexivity|].
    split; [rewrite last_cons_default; exact Hfinal|].
    split; [constructor; [apply (frame_of_captured _ _ _ _ _ Hf) | exact Hcap]|].
    intros Ha. rewrite (frame_of_no_arrow _ _ _ _ _ Ha Hf), (Hno Ha). reflexivity.
Qed.

Lemma last_Forall (P : Image -> Prop) (l : list Image) :
  forall d : Image, Forall P (d :: l) -> P (List.last l d).
Proof.
  induction l as [|a l IH]; intros d H.
  - apply Forall_cons in H. apply H.
  - rewrite last_cons_default. apply IH. apply Forall_cons in H. apply H.
Qed.

(** C9: the frames of [create_gif] are new objects, distinct from each
    other, from the live canvas and from the initial canvas; each holds the
    content that the live canvas had when it was captured, with the arrow of
    the move drawn on it when the overlay is enabled.  The arrow is drawn on
    the frame only: after all the plies the live canvas holds what the
    repainting of the squares produced, and nothing was ever drawn on it. *)
Theorem frames_are_copies (self : PgnToGifCreator) (pgn : string) (h : store)
    (game : ChessGame) :
  ready self h = true -> drawable self = true ->
  ChessGame_load pgn = Ok game -> game_ok self game = true ->
  exists (self' : PgnToGifCreator) (board_image : ref) (refs : list ref)
         (h' : store) (first : Image) (frames canvases : list Image),
    create_gif_frames self pgn h
    = Ok ((self', board_image, refs ++ replicate 3 (List.last refs 0%nat)), h')
    /\ NoDup (board_image :: refs)
    /\ Forall (fun r => length h <= r)%nat (board_image :: refs)
    /\ (forall r, _initial_board self' = Some r -> ~ In r (board_image :: refs))
    /\ Forall2 (fun r img => h' !! r = Some img) refs (first :: frames)
    /\ drawn_on first = false
    /\ repaints self' first (state game) (upcoming game) = Ok canvases
    /\ Forall2 (captured self') canvases frames
    /\ (_arrow self = false -> frames = canvases)
    /\ h' !! board_image = Some (List.last canvases first)
    /\ Forall (fun canvas => drawn_on canvas = false) (first :: canvases).
Proof.
  intros Hready Hdraw Hload Hgame.
  destruct (game_ok_split _ _ Hgame) as [Hwf Hsafe].
  destruct (render_prepared self h game Hready Hdraw Hwf Hsafe)
    as (img0 & r & final & frames & Hprep & Hib & Hr & Hle & Hd & Hinit
        & Hrender & Hlen & _).
  cbv zeta in Hprep, Hib, Hr, Hrender.
  set (self1 := prepared self (length h)) in *.
  set (h1 := if _should_redraw self then h ++ [img0] else h) in *.
  destruct (render_repaints _ _ _ _ _ _ Hrender) as (canvases & Hreps & Hfinal & Hcap & Hno).
  assert (Hh1 : (length h <= length h1)%nat /\ (r < length h1)%nat).
  { split; [|eapply lookup_lt_Some, Hr].
    unfold h1. destruct (_should_redraw self); [rewrite length_app|]; simpl; lia. }
  destruct Hh1 as [Hh1 Hrlt].
  exists self1, (length h1), (seq (S (length h1)) (S (plies game))),
    (h1 ++ final :: img0 :: frames), img0, frames, canvases.
  split.
  { rewrite (create_gif_frames_eq _ _ _ _ _ _ _ _ Hprep Hib Hr Hload), Hrender.
    rewrite last_seq. reflexivity. }
  split.
  { change (length h1 :: seq (S (length h1)) (S (plies game)))
      with (seq (length h1) (S (S (plies game)))). apply NoDup_seq. }
  split.
  { apply Forall_forall. intros x Hx.
    change (length h1 :: seq (S (length h1)) (S (plies game)))
      with (seq (length h1) (S (S (plies game)))) in Hx.
    apply elem_of_seq in Hx. lia. }
  split.
  { intros r' Hr'. rewrite Hib in Hr'. injection Hr' as <-. intros Hin.
    change (length h1 :: seq (S (length h1)) (S (plies game)))
      with (seq (length h1) (S (S (plies game)))) in Hin.
    apply in_seq in Hin. lia. }
  split.
  { rewrite <- Hlen. apply (Forall2_seq_lookup (img0 :: frames)). intros i img Hi.
    rewrite lookup_after. exact Hi. }
  split; [exact Hd|].
  split; [exact Hreps|].
  split; [exact Hcap|].
  split; [intros Ha; apply Hno; unfold self1; rewrite prepared_arrow; exact Ha|].
  split; [rewrite <- Hfinal; apply list_lookup_middle; reflexivity|].
  constructor; [exact Hd|].
  apply repaints_drawn in Hreps. rewrite Hd in Hreps. exact Hreps.
Qed.

Lemma draw_arrow_shape (board : Image) (x0 y0 x1 y1 : float) (width : Z)
    (col : color) :
  exists vtx0 vtx1,
    _draw_arrow board x0 y0 x1 y1 width col
    = ImageDraw_polygon (ImageDraw_line board (x0, y0, x1, y1) col width)
        [vtx0; vtx1; (x1, y1)] col col.
Proof. unfold _draw_arrow. do 2 eexists. reflexivity. Qed.

(** C3: with the arrow overlay enabled, when the first two changed squares
    of a ply are one occupied and one empty in the current snapshot, the
    frame of the ply is the repainted canvas with a shaft from the centre of
    the empty square to the centre of the occupied one and a triangle whose
    apex is the centre of the occupied square; the centre of a square is its
    corner plus half of [_SQ_SIZE] on each axis. *)
Theorem arrow_between_centres (self : PgnToGifCreator) (board_image : ref)
    (previous cur : snapshot) (frames : list ref) (h : store) (img img' : Image)
    (s0 s1 : string) (rest : list string) (p0 p1 : string) (c0 c1 : Z * Z) :
  _arrow self = true ->
  h !! board_image = Some img ->
  changed_squares_of cur previous = Ok (s0 :: s1 :: rest) ->
  _update_board_image self img cur (s0 :: s1 :: rest) = Ok img' ->
  dict_get cur s0 = Ok p0 -> dict_get cur s1 = Ok p1 ->
  truthy p0 = negb (truthy p1) ->
  _coordinates_of_square self s0 = Ok c0 ->
  _coordinates_of_square self s1 = Ok c1 ->
  let occupied := if truthy p0 then c0 else c1 in
  let vacated := if truthy p0 then c1 else c0 in
  exists vtx0 vtx1,
    ply self board_image previous cur frames h
    = Ok (frames ++ [length h],
          <[board_image := img']> h
          ++ [ImageDraw_polygon
                (ImageDraw_line img'
                   ((centre vacated).1, (centre vacated).2,
                    (centre occupied).1, (centre occupied).2)
                   (ColorRGB 120 30 72) 3)
                [vtx0; vtx1; centre occupied]
                (ColorRGB 120 30 72) (ColorRGB 120 30 72)])
    /\ centre occupied
       = (float_of_int occupied.1 + 30, float_of_int occupied.2 + 30)%float
    /\ centre vacated
       = (float_of_int vacated.1 + 30, float_of_int vacated.2 + 30)%float.
Proof.
  intros Ha Hb Hch Hup Hp0 Hp1 Hone H0 H1 occupied vacated.
  rewrite (ply_eq _ _ _ _ _ _ _ Hb).
  unfold repaint, frame_of. unfold_m. rewrite Hch, Hup, Ha.
  change (0 <? length (s0 :: s1 :: rest))%nat with true. cbv iota.
  rewrite (arrow_of_move_eq _ _ _ _ _ _ _ _ Hp1 H0 H1).
  unfold occupied, vacated. rewrite Hone.
  destruct (truthy p1); simpl negb; cbv iota.
  - destruct (draw_arrow_shape img' (centre c0).1 (centre c0).2
                (centre c1).1 (centre c1).2 3 (ColorRGB 120 30 72))
      as (vtx0 & vtx1 & Hshape).
    exists vtx0, vtx1. rewrite Hshape. repeat split.
  - destruct (draw_arrow_shape img' (centre c1).1 (centre c1).2
                (centre c0).1 (centre c0).2 3 (ColorRGB 120 30 72))
      as (vtx0 & vtx1 & Hshape).
    exists vtx0, vtx1. rewrite Hshape. repeat split.
Qed.

Lemma load_assets_non_empty (l : list string) :
  forall m : gmap string Image,
  m <> ∅ ->
  fold_left (fun pieces asset => <[Path_stem asset := Image_open asset]> pieces) l m
  <> ∅.
Proof.
  induction l as [|a l IH]; intros m Hm; simpl; [exact Hm|].
  apply IH, insert_non_empty.
Qed.

(** Loading the assets a second time does not change a cache that the
    first loading left. *)
Lemma load_assets_stable (p : gmap string Image) :
  let q := if Nat.eqb (size p) 0 then load_assets p else p in
  (if Nat.eqb (size q) 0 then load_assets q else q) = q.
Proof.
  destruct (Nat.eqb (size p) 0) eqn:E; cbv zeta.
  - destruct (Nat.eqb (size (load_assets p)) 0) eqn:E2; [|reflexivity].
    apply Nat.eqb_eq, map_size_empty_iff in E2.
    unfold load_assets in *. destruct assets as [|a l]; [reflexivity|].
    simpl in E2. exfalso. revert E2. apply load_assets_non_empty, insert_non_empty.
  - rewrite E. reflexivity.
Qed.

(** C7: on an instance that was constructed and has rendered once, the
    setter of the reversal flag or of a board colour stores the value it is
    given, marks the initial canvas stale and leaves the other settings and
    the sprite cache as they are; the next render then builds a new initial
    canvas from the new configuration, the one that an instance constructed
    with the new value paints, makes it the first frame, keeps the new
    value, and still leaves the sprite cache as the first render filled
    it. *)
Theorem setters_invalidate_canvas (rev : bool) (dur : float) (ws bs : string)
    (arrow : bool) (pgn1 pgn2 : string) (out1 out2 : option string) (h : store)
    (game1 game2 : ChessGame) (ms : Z) :
  let self := __init__ rev dur ws bs arrow in
  drawable self = true ->
  ChessGame_load pgn1 = Ok game1 -> game_ok self game1 = true ->
  ChessGame_load pgn2 = Ok game2 -> game_ok self game2 = true ->
  int_of_float (dur * 1000)%float = Ok ms ->
  exists (self1 : PgnToGifCreator) (gif1 : GifFile) (h1 : store),
    create_gif self pgn1 out1 h = Ok ((self1, gif1), h1)
    /\ _should_redraw self1 = false
    /\ _pieces self1 = load_assets ∅
    /\ forall (self2 : PgnToGifCreator) (rev' : bool) (ws' bs' : string),
         (exists b, self2 = set_reverse self1 b /\ (rev', ws', bs') = (b, ws, bs))
         \/ (exists c, self2 = set_ws_color self1 c /\ (rev', ws', bs') = (rev, c, bs))
         \/ (exists c, self2 = set_bs_color self1 c /\ (rev', ws', bs') = (rev, ws, c)) ->
         _should_redraw self2 = true
         /\ _pieces self2 = _pieces self1
         /\ reverse self2 = rev' /\ ws_color self2 = ws' /\ bs_color self2 = bs'
         /\ exists (self3 : PgnToGifCreator) (gif2 : GifFile) (h2 : store)
                   (canvas : Image),
              create_gif self2 pgn2 out2 h1 = Ok ((self3, gif2), h2)
              /\ initial_canvas self2 = Ok canvas
              /\ initial_canvas (__init__ rev' dur ws' bs' arrow) = Ok canvas
              /\ head (gif_images gif2) = Some canvas
              /\ _initial_board self3 = Some (length h1)
              /\ _initial_board self3 <> _initial_board self1
              /\ h2 !! length h1 = Some canvas
              /\ _should_redraw self3 = false
              /\ _pieces self3 = _pieces self1
              /\ _reverse self3 = _reverse self2
              /\ _ws self3
                 = Some (Image_new "RGBA" (_SQ_SIZE, _SQ_SIZE)
                           (Some (ColorName (_ws_color self2))))
              /\ _bs self3
                 = Some (Image_new "RGBA" (_SQ_SIZE, _SQ_SIZE)
                           (Some (ColorName (_bs_color self2))))
              /\ reverse self3 = rev' /\ ws_color self3 = ws' /\ bs_color self3 = bs'
              /\ _ws self3
                 = Some (Image_new "RGBA" (_SQ_SIZE, _SQ_SIZE) (Some (ColorName ws')))
              /\ _bs self3
                 = Some (Image_new "RGBA" (_SQ_SIZE, _SQ_SIZE) (Some (ColorName bs'))).
Proof.
  intros self Hdraw Hload1 Hgame1 Hload2 Hgame2 Hms.
  assert (Hready : ready self h = true) by reflexivity.
  destruct (game_ok_split _ _ Hgame1) as [Hwf1 Hsafe1].
  destruct (render_prepared self h game1 Hready Hdraw Hwf1 Hsafe1)
    as (img0 & r & final & frames & Hprep & Hib & Hr & _ & _ & _ & Hrender & _).
  cbv zeta in Hprep, Hib, Hr, Hrender.
  change (prepared self (length h)) with (redrawn self (length h)) in *.
  change (if _should_redraw self then h ++ [img0] else h) with (h ++ [img0]) in *.
  set (self1 := redrawn self (length h)) in *.
  set (h1 := (h ++ [img0]) ++ final :: img0 :: frames).
  assert (Hp1 : _pieces self1 = load_assets ∅) by reflexivity.
  eexists self1, _, h1.
  split.
  { exact (create_gif_eq self self1 pgn1 out1 h (h ++ [img0]) r img0 final frames
             game1 ms Hprep Hib Hr Hload1 Hrender Hms). }
  split; [reflexivity|]. split; [exact Hp1|].
  intros self2 rev' ws' bs' Hset.
  assert (Hself2 : _should_redraw self2 = true /\ _pieces self2 = _pieces self1
                   /\ _arrow self2 = arrow /\ duration self2 = dur
                   /\ _reverse self2 = rev' /\ _ws_color self2 = ws'
                   /\ _bs_color self2 = bs').
  { destruct Hset as [(b & -> & [= -> -> ->])|[(c & -> & [= -> -> ->])
                                               |(c & -> & [= -> -> ->])]];
      repeat split. }
  destruct Hself2 as (Hre2 & Hp2 & Ha2 & Hd2 & Hrev2 & Hws2 & Hbs2).
  split; [exact Hre2|]. split; [exact Hp2|].
  split; [exact Hrev2|]. split; [exact Hws2|]. split; [exact Hbs2|].
  assert (Hstable : (if Nat.eqb (size (_pieces self2)) 0
                     then load_assets (_pieces self2) else _pieces self2)
                    = load_assets ∅).
  { rewrite Hp2, Hp1.
    pose proof (load_assets_stable ∅) as Hst. cbv zeta in Hst.
    change (Nat.eqb (size (∅ : gmap string Image)) 0) with true in Hst.
    cbv iota in Hst. exact Hst. }
  assert (Hsp : sprites self2 = sprites self).
  { unfold sprites, prepared. rewrite Hre2. simpl. exact Hstable. }
  assert (Hready2 : ready self2 h1 = true) by (unfold ready; rewrite Hre2; reflexivity).
  assert (Hdraw2 : drawable self2 = true).
  { unfold drawable in *. rewrite Hsp, Hre2. exact Hdraw. }
  destruct (game_ok_split _ _ Hgame2) as [Hwf2 Hsafe2].
  destruct (render_prepared self2 h1 game2 Hready2 Hdraw2)
    as (canvas & r2 & final2 & frames2 & Hprep2 & Hib2 & Hr2 & _ & _ & Hinit2
        & Hrender2 & _).
  { rewrite Hsp. exact Hwf2. }
  { rewrite Ha2. exact Hsafe2. }
  cbv zeta in Hprep2, Hib2, Hr2, Hrender2.
  destruct (Hinit2 Hre2) as [Hcanvas ->].
  assert (Hms2 : int_of_float (duration (prepared self2 (length h1)) * 1000)%float = Ok ms).
  { rewrite prepared_duration, Hd2. exact Hms. }
  assert (Hfresh : initial_canvas (__init__ rev' dur ws' bs' arrow) = Ok canvas).
  { rewrite <- Hcanvas. unfold initial_canvas.
    apply update_board_image_ext; simpl.
    - symmetry. exact Hrev2.
    - rewrite Hws2. reflexivity.
    - rewrite Hbs2. reflexivity.
    - symmetry. exact Hstable. }
  eexists (prepared self2 (length h1)), _, _, canvas.
  split; [apply (create_gif_eq _ _ _ _ _ _ _ _ _ _ _ _ Hprep2 Hib2 Hr2 Hload2 Hrender2 Hms2)|].
  split; [exact Hcanvas|]. split; [exact Hfresh|]. split; [reflexivity|].
  unfold prepared in *. rewrite Hre2 in *.
  split; [reflexivity|].
  split.
  { simpl. intros [= Heq]. unfold h1 in Heq. rewrite !length_app in Heq. simpl in Heq. lia. }
  split.
  { rewrite lookup_app_l by (rewrite length_app; simpl; lia).
    apply lookup_snoc_length. }
  split; [reflexivity|].
  split; [rewrite Hp1; simpl; exact Hstable|].
  split; [reflexivity|]. split; [reflexivity|]. split; [reflexivity|].
  split; [exact Hrev2|]. split; [exact Hws2|]. split; [exact Hbs2|].
  simpl. rewrite Hws2, Hbs2. split; reflexivity.
Qed.

(** ** Further properties of the methods *)

(** *** [_coordinates_of_square] on arbitrary strings *)

Lemma int_of_char_cases (b : ascii) :
  (48 <= ord b <= 57 /\ int_of_char b = Ok (ord b - 48))
  \/ (~ 48 <= ord b <= 57 /\ int_of_char b = Raise ValueError).
Proof.
  unfold int_of_char.
  destruct (48 <=? ord b) eqn:H1; destruct (ord b <=? 57) eqn:H2; simpl;
    rewrite ?Z.leb_le, ?Z.leb_gt in *; [left | right ..]; split; auto; lia.
Qed.

(** X1: on the strings of 8-bit characters (code points below 256),
    [_coordinates_of_square] raises [IndexError] exactly on the strings of
    fewer than two characters and [ValueError] exactly when the second
    character is not one of the digits 0 to 9; on every other such string it
    returns, from the first two characters alone, without checking that the
    file is a to h or the rank 1 to 8. *)
Theorem coordinates_of_square_errors (self : PgnToGifCreator) (s : string) :
  (_coordinates_of_square self s = Raise IndexError <-> (String.length s < 2)%nat)
  /\ (_coordinates_of_square self s = Raise ValueError <->
      exists a b rest, s = String a (String b rest) /\ ~ 48 <= ord b <= 57)
  /\ (forall a b rest,
        s = String a (String b rest) -> 48 <= ord b <= 57 ->
        _coordinates_of_square self s
        = Ok (if _reverse self
              then ((7 - (ord a - 97)) * _SQ_SIZE, (ord b - 49) * _SQ_SIZE)
              else ((ord a - 97) * _SQ_SIZE, (7 - (ord b - 49)) * _SQ_SIZE))).
Proof.
  unfold _coordinates_of_square, reverse. unfold_m.
  destruct s as [|a [|b rest]]; simpl.
  - split; [split; [intros _; lia | reflexivity]|].
    split; [split; [discriminate | intros (a & b & rest & H & _); discriminate]|].
    intros a b rest H. discriminate.
  - split; [split; [intros _; lia | reflexivity]|].
    split; [split; [discriminate | intros (a' & b & rest & H & _); discriminate]|].
    intros a' b rest H. discriminate.
  - destruct (int_of_char_cases b) as [[Hd ->]|[Hd ->]].
    + split; [split; [destruct (_reverse self); discriminate | intros H; lia]|].
      split.
      { split; [destruct (_reverse self); discriminate|].
        intros (a' & b' & rest' & [= -> -> ->] & Hn). contradiction. }
      intros a' b' rest' [= <- <- <-] _.
      replace (ord b - 48 - 1) with (ord b - 49) by lia.
      destruct (_reverse self); reflexivity.
    + split; [split; [discriminate | intros H; lia]|].
      split; [split; [intros _; eauto | reflexivity]|].
      intros a' b' rest' [= <- <- <-] Hd'. contradiction.
Qed.

Lemma square_name_inj (c r c' r' : Z) :
  0 <= c <= 7 -> 0 <= r <= 7 -> 0 <= c' <= 7 -> 0 <= r' <= 7 ->
  square_name c r = square_name c' r' -> c = c' /\ r = r'.
Proof.
  intros Hc Hr Hc' Hr' H.
  pose proof (coordinates_of_square_name (__init__ false 0 EmptyString EmptyString false)
                c r Hc Hr) as H1.
  pose proof (coordinates_of_square_name (__init__ false 0 EmptyString EmptyString false)
                c' r' Hc' Hr') as H2.
  rewrite H, H2 in H1. simpl in H1. injection H1 as Hx Hy.
  change _SQ_SIZE with 60 in *. lia.
Qed.

(** X2: on the valid squares the coordinates are the corners of the 64
    tiles of the board: multiples of [_SQ_SIZE] between 0 and
    [_BOARD_SIZE - _SQ_SIZE], and two distinct squares never get the same
    corner, whatever the reversal flag. *)
Theorem coordinates_of_square_injective (self : PgnToGifCreator) (s t : string)
    (crd : Z * Z) :
  valid_square s = true -> valid_square t = true ->
  _coordinates_of_square self s = Ok crd ->
  (0 <= crd.1 <= _BOARD_SIZE - _SQ_SIZE /\ crd.1 mod _SQ_SIZE = 0)
  /\ (0 <= crd.2 <= _BOARD_SIZE - _SQ_SIZE /\ crd.2 mod _SQ_SIZE = 0)
  /\ (_coordinates_of_square self t = Ok crd -> s = t).
Proof.
  intros Hs Ht.
  apply valid_square_name in Hs. destruct Hs as (c & r & Hc & Hr & ->).
  apply valid_square_name in Ht. destruct Ht as (c' & r' & Hc' & Hr' & ->).
  rewrite !coordinates_of_square_name by assumption.
  change _SQ_SIZE with 60. change _BOARD_SIZE with 480.
  intros [= <-].
  split.
  { destruct (_reverse self); simpl; rewrite Z.mod_mul by lia; lia. }
  split.
  { destruct (_reverse self); simpl; rewrite Z.mod_mul by lia; lia. }
  intros Heq.
  assert (c' = c /\ r' = r) as [-> ->]; [|reflexivity].
  destruct (_reverse self); injection Heq as Hx Hy; lia.
Qed.

(** *** [_update_board_image] *)

Lemma has_key_false_get {V} (d : dict V) (k : string) :
  has_key d k = false -> dict_get d k = Raise KeyError.
Proof.
  unfold has_key, keys. induction d as [|[k' v] d IH]; simpl; [reflexivity|].
  destruct (String.eqb k' k); simpl; [discriminate | exact IH].
Qed.

Lemma pieces_get_missing (pieces : gmap string Image) (p : string) :
  sprite_ok pieces p = false -> truthy p = true /\ pieces_get pieces p = Raise KeyError.
Proof.
  unfold sprite_ok, pieces_get. destruct (truthy p); simpl; [|discriminate].
  destruct (pieces !! p); [discriminate | auto].
Qed.

Lemma update_board_image_cases (self : PgnToGifCreator) (st : snapshot)
    (changed : list string) :
  forall img : Image,
  is_Some (_ws self) -> is_Some (_bs self) ->
  forallb valid_square changed = true ->
  if forallb (paintable (_pieces self) st) changed
  then exists img', _update_board_image self img st changed = Ok img'
  else _update_board_image self img st changed = Raise KeyError.
Proof.
  induction changed as [|s changed IH]; intros img Hws Hbs Hv; simpl.
  - eauto.
  - simpl in Hv. apply andb_true_iff in Hv. destruct Hv as [Hs Hv].
    destruct (coordinates_valid self s Hs) as [crd ->]. unfold_m.
    destruct Hws as [ws Hws]. destruct Hbs as [bs Hbs].
    assert (Htile : exists tile,
               (if white_square crd then attr (_ws self) else attr (_bs self)) = Ok tile).
    { rewrite Hws, Hbs. destruct (white_square crd); simpl; eauto. }
    destruct Htile as [tile ->].
    unfold paintable at 1.
    destruct (dict_get st s) as [p|e] eqn:Hp.
    + destruct (sprite_ok (_pieces self) p) eqn:Hsp; simpl.
      * destruct (truthy p) eqn:Ht.
        -- destruct (pieces_get_ok _ _ Hsp Ht) as [sprite ->].
           apply IH; eauto.
        -- apply IH; eauto.
      * destruct (pieces_get_missing _ _ Hsp) as [-> ->]. reflexivity.
    + simpl. assert (e = KeyError) as ->; [|reflexivity].
      destruct (has_key st s) eqn:Hk.
      * destruct (has_key_get _ _ Hk) as [v Hv']. congruence.
      * rewrite (has_key_false_get _ _ Hk) in Hp. congruence.
Qed.

(** X3: on valid squares and with the two tiles in place, the only failure
    of [_update_board_image] is [KeyError]: it is raised exactly when one of
    the changed squares is missing from the snapshot or holds a piece that
    has no sprite; otherwise the canvas is repainted. *)
Theorem update_board_image_key_error (self : PgnToGifCreator) (img : Image)
    (st : snapshot) (changed : list string) :
  is_Some (_ws self) -> is_Some (_bs self) ->
  forallb valid_square changed = true ->
  (forallb (paintable (_pieces self) st) changed = false ->
   _update_board_image self img st changed = Raise KeyError)
  /\ (forallb (paintable (_pieces self) st) changed = true ->
      exists img', _update_board_image self img st changed = Ok img').
Proof.
  intros Hws Hbs Hv.
  pose proof (update_board_image_cases self st changed img Hws Hbs Hv) as H.
  split; intros Hp; rewrite Hp in H; exact H.
Qed.

(** X4: repainting a list of squares is repainting a first part of it and
    then the rest, on the canvas that the first part left. *)
Theorem update_board_image_app (self : PgnToGifCreator) (st : snapshot)
    (l1 l2 : list string) (img : Image) :
  _update_board_image self img st (l1 ++ l2)
  = (img' ← _update_board_image self img st l1;
     _update_board_image self img' st l2).
Proof.
  revert img. induction l1 as [|s l1 IH]; intros img; [reflexivity|].
  simpl. unfold_m.
  destruct (_coordinates_of_square self s) as [crd|]; [|reflexivity].
  destruct (if white_square crd then attr (_ws self) else attr (_bs self));
    [|reflexivity].
  destruct (dict_get st s) as [p|]; [|reflexivity].
  destruct (truthy p).
  - destruct (pieces_get (_pieces self) p); [|reflexivity]. apply IH.
  - apply IH.
Qed.

(** *** The changed squares *)

Lemma changed_among_key_error (ks : list string) (cur previous : snapshot) :
  forallb (has_key cur) ks = true -> forallb (has_key previous) ks = false ->
  changed_among ks cur previous = Raise KeyError.
Proof.
  induction ks as [|s ks IH]; simpl; [discriminate|].
  rewrite andb_true_iff. intros [Hc Hcs] Hp.
  destruct (has_key_get _ _ Hc) as [a ->]. unfold_m.
  destruct (has_key previous s) eqn:Hk.
  - destruct (has_key_get _ _ Hk) as [b ->]. simpl in Hp.
    rewrite (IH Hcs Hp). reflexivity.
  - rewrite (has_key_false_get _ _ Hk). reflexivity.
Qed.

(** X5: when the current snapshot has a key that the previous one has not,
    the comparison of the two snapshots raises [KeyError]: nothing is
    repainted and no frame is captured for the ply. *)
Theorem changed_squares_missing_key (self : PgnToGifCreator) (board_image : ref)
    (cur previous : snapshot) (frames : list ref) (h : store) :
  keys_within cur previous = false ->
  changed_squares_of cur previous = Raise KeyError
  /\ ply self board_image previous cur frames h = Raise KeyError.
Proof.
  intros H.
  assert (Hch : changed_squares_of cur previous = Raise KeyError).
  { apply changed_among_key_error; [apply forallb_has_key_self | exact H]. }
  split; [exact Hch|]. unfold ply. unfold_m. rewrite Hch. reflexivity.
Qed.

(** *** One ply that changes nothing *)

Lemma differs_same (st : snapshot) (s : string) : differs st st s = false.
Proof.
  unfold differs. destruct (dict_get st s) as [a|]; [|reflexivity].
  rewrite String.eqb_refl. reflexivity.
Qed.

Lemma changed_list_same (st : snapshot) : changed_list st st = [].
Proof.
  unfold changed_list. induction (keys st) as [|s ks IH]; [reflexivity|].
  simpl. rewrite differs_same. exact IH.
Qed.

(** X6: a ply that leaves the snapshot as it was changes no square: the
    live canvas keeps its content, the frame of the ply is a copy of it, and
    no arrow is drawn, also when the overlay is enabled. *)
Theorem ply_unchanged (self : PgnToGifCreator) (board_image : ref) (st : snapshot)
    (frames : list ref) (h : store) (img : Image) :
  h !! board_image = Some img ->
  ply self board_image st st frames h = Ok (frames ++ [length h], h ++ [img]).
Proof.
  intros Hb. rewrite (ply_eq _ _ _ _ _ _ _ Hb). unfold repaint, frame_of.
  rewrite (changed_squares_of_list st st (forallb_has_key_self st)), changed_list_same.
  unfold_m. simpl. rewrite (list_insert_id _ _ _ Hb).
  destruct (_arrow self); reflexivity.
Qed.

(** *** [create_gif]: what it leaves behind *)

Lemma prepared_tiles (self : PgnToGifCreator) (h : store) (r : ref) :
  ready self h = true ->
  is_Some (_ws (prepared self r)) /\ is_Some (_bs (prepared self r)).
Proof.
  unfold ready, prepared. destruct (_should_redraw self); simpl; [eauto|].
  destruct (_initial_board self); [|discriminate].
  destruct (_ws self); [|discriminate]. destruct (_bs self); [|discriminate]. eauto.
Qed.

Lemma prepared_config (self : PgnToGifCreator) (r : ref) :
  _reverse (prepared self r) = _reverse self
  /\ _ws_color (prepared self r) = _ws_color self
  /\ _bs_color (prepared self r) = _bs_color self.
Proof. unfold prepared. destruct (_should_redraw self); repeat split. Qed.

(** [create_gif] on well-formed inputs, with everything it produces. *)
Lemma create_gif_ok (self : PgnToGifCreator) (pgn : string) (out_path : option string)
    (h : store) (game : ChessGame) (ms : Z) :
  ready self h = true -> drawable self = true ->
  ChessGame_load pgn = Ok game -> game_ok self game = true ->
  int_of_float (duration self * 1000)%float = Ok ms ->
  exists (img0 : Image) (r : ref) (final : Image) (frames : list Image),
    let self1 := prepared self (length h) in
    let h1 := if _should_redraw self then h ++ [img0] else h in
    create_gif self pgn out_path h
    = Ok ((self1,
           {| gif_path := save_path pgn out_path;
              gif_images := (img0 :: frames) ++ replicate 3 (List.last frames img0);
              gif_duration := ms; gif_loop := 0; gif_optimize := true |}),
          h1 ++ final :: img0 :: frames)
    /\ _initial_board self1 = Some r /\ h1 !! r = Some img0
    /\ drawn_on img0 = false
    /\ render self1 img0 (state game) (upcoming game) = Ok (final, frames)
    /\ length frames = plies game
    /\ (_should_redraw self = true -> initial_canvas self = Ok img0).
Proof.
  intros Hready Hdraw Hload Hgame Hms.
  destruct (game_ok_split _ _ Hgame) as [Hwf Hsafe].
  destruct (render_prepared self h game Hready Hdraw Hwf Hsafe)
    as (img0 & r & final & frames & Hprep & Hib & Hr & _ & Hd & Hinit & Hrender & Hlen & _).
  cbv zeta in Hprep, Hib, Hr, Hrender.
  assert (Hms1 : int_of_float (duration (prepared self (length h)) * 1000)%float = Ok ms)
    by (rewrite prepared_duration; exact Hms).
  exists img0, r, final, frames. cbv zeta.
  split; [apply (create_gif_eq _ _ _ _ _ _ _ _ _ _ _ _ Hprep Hib Hr Hload Hrender Hms1)|].
  repeat split; auto. intros H. apply Hinit, H.
Qed.

(** X7: [create_gif] creates images and changes none: the store it leaves
    is the store it found followed by the new images, one live canvas and
    one frame per position of the game, and one initial canvas when it was
    stale.  The instance keeps its configuration and its initial canvas is
    not stale afterwards. *)
Theorem create_gif_allocates_only (self : PgnToGifCreator) (pgn : string)
    (out_path : option string) (h : store) (game : ChessGame) (ms : Z) :
  ready self h = true -> drawable self = true ->
  ChessGame_load pgn = Ok game -> game_ok self game = true ->
  int_of_float (duration self * 1000)%float = Ok ms ->
  exists (self' : PgnToGifCreator) (gif : GifFile) (new : list Image),
    create_gif self pgn out_path h = Ok ((self', gif), h ++ new)
    /\ length new
       = (plies game + 2 + if _should_redraw self then 1 else 0)%nat
    /\ _should_redraw self' = false
    /\ _reverse self' = _reverse self
    /\ _ws_color self' = _ws_color self /\ _bs_color self' = _bs_color self
    /\ _arrow self' = _arrow self /\ duration self' = duration self.
Proof.
  intros Hready Hdraw Hload Hgame Hms.
  destruct (create_gif_ok self pgn out_path h game ms Hready Hdraw Hload Hgame Hms)
    as (img0 & r & final & frames & Hgif & _ & _ & _ & _ & Hlen & _).
  cbv zeta in Hgif.
  destruct (prepared_config self (length h)) as (Hrev & Hwc & Hbc).
  eexists _, _, ((if _should_redraw self then [img0] else []) ++ final :: img0 :: frames).
  split.
  { rewrite Hgif. do 2 f_equal. rewrite app_assoc. f_equal.
    destruct (_should_redraw self); [reflexivity | rewrite app_nil_r; reflexivity]. }
  split.
  { rewrite length_app. simpl. rewrite Hlen.
    destruct (_should_redraw self); simpl; lia. }
  split; [apply prepared_should_redraw|].
  repeat split; auto using prepared_arrow, prepared_duration.
Qed.

Lemma sprites_prepared (self : PgnToGifCreator) (r : ref) :
  sprites (prepared self r) = sprites self.
Proof.
  unfold sprites at 1. unfold prepared at 1.
  rewrite prepared_should_redraw. apply prepared_pieces.
Qed.

Lemma game_ok_prepared (self : PgnToGifCreator) (r : ref) (game : ChessGame) :
  game_ok (prepared self r) game = game_ok self game.
Proof. unfold game_ok. rewrite sprites_prepared, prepared_arrow. reflexivity. Qed.

Lemma ready_prepared (self : PgnToGifCreator) (h h1 rest : store) (r r0 : ref)
    (img0 : Image) :
  ready self h = true ->
  _initial_board (prepared self r0) = Some r -> h1 !! r = Some img0 ->
  drawn_on img0 = false ->
  ready (prepared self r0) (h1 ++ rest) = true.
Proof.
  intros Hready Hib Hr Hd. destruct (prepared_tiles self h r0 Hready) as [[ws Hws] [bs Hbs]].
  unfold ready. rewrite prepared_should_redraw, Hib, Hws, Hbs. simpl.
  rewrite (lookup_app_l_Some _ _ _ _ Hr), Hd. reflexivity.
Qed.

Lemma drawable_ready (self : PgnToGifCreator) :
  _should_redraw self = false -> drawable self = true.
Proof. intros H. unfold drawable. rewrite H. reflexivity. Qed.

(** X8: a second [create_gif] on the same instance, with no setter called
    in between, does not paint the initial canvas again: it returns the
    instance as it was, creates only the live canvas and the frames, and its
    first frame has the content of the first frame of the first render.
    Rendering the same game again saves the same images. *)
Theorem create_gif_reuses_canvas (self : PgnToGifCreator) (pgn1 pgn2 : string)
    (out1 out2 : option string) (h : store) (game1 game2 : ChessGame) (ms : Z) :
  ready self h = true -> drawable self = true ->
  ChessGame_load pgn1 = Ok game1 -> game_ok self game1 = true ->
  ChessGame_load pgn2 = Ok game2 -> game_ok self game2 = true ->
  int_of_float (duration self * 1000)%float = Ok ms ->
  exists (self1 : PgnToGifCreator) (gif1 gif2 : GifFile) (h1 h2 : store),
    create_gif self pgn1 out1 h = Ok ((self1, gif1), h1)
    /\ create_gif self1 pgn2 out2 h1 = Ok ((self1, gif2), h2)
    /\ head (gif_images gif2) = head (gif_images gif1)
    /\ length h2 = (length h1 + plies game2 + 2)%nat
    /\ (game2 = game1 -> gif_images gif2 = gif_images gif1).
Proof.
  intros Hready Hdraw Hload1 Hgame1 Hload2 Hgame2 Hms.
  destruct (create_gif_ok self pgn1 out1 h game1 ms Hready Hdraw Hload1 Hgame1 Hms)
    as (img0 & r & final & frames & Hgif & Hib & Hr & Hd & Hrender1 & _ & _).
  cbv zeta in Hrender1.
  cbv zeta in Hgif, Hib, Hr.
  set (self1 := prepared self (length h)) in *.
  set (h1 := (if _should_redraw self then h ++ [img0] else h) ++ final :: img0 :: frames) in *.
  assert (Hre1 : _should_redraw self1 = false) by apply prepared_should_redraw.
  assert (Hready1 : ready self1 h1 = true)
    by (eapply ready_prepared; eauto).
  assert (Hgame2' : game_ok self1 game2 = true)
    by (unfold self1; rewrite game_ok_prepared; exact Hgame2).
  assert (Hms1 : int_of_float (duration self1 * 1000)%float = Ok ms)
    by (unfold self1; rewrite prepared_duration; exact Hms).
  destruct (create_gif_ok self1 pgn2 out2 h1 game2 ms Hready1
              (drawable_ready _ Hre1) Hload2 Hgame2' Hms1)
    as (img0' & r' & final' & frames' & Hgif2 & Hib' & Hr' & _ & Hrender2 & Hlen' & _).
  cbv zeta in Hgif2, Hib', Hr', Hrender2.
  unfold prepared in Hgif2, Hib', Hr', Hrender2.
  rewrite Hre1 in Hgif2, Hib', Hr', Hrender2.
  assert (r' = r) as -> by congruence.
  assert (img0' = img0) as ->.
  { unfold h1 in Hr'. rewrite (lookup_app_l_Some _ _ _ _ Hr) in Hr'. congruence. }
  eexists self1, _, _, h1, _.
  split; [exact Hgif|]. split; [exact Hgif2|]. split; [reflexivity|].
  split; [rewrite length_app; simpl; rewrite Hlen'; lia|].
  intros ->. simpl. rewrite Hrender1 in Hrender2. injection Hrender2 as _ <-.
  reflexivity.
Qed.

(** *** [create_gif]: the duration and the output path *)

Lemma int_of_float_errors (x : float) (e : exn) :
  int_of_float x = Raise e -> e = ValueError \/ e = OverflowError.
Proof.
  unfold int_of_float. destruct (Prim2SF x); try discriminate; intros [= <-]; auto.
Qed.

Lemma create_gif_duration_error (self self1 : PgnToGifCreator) (pgn : string)
    (out_path : option string) (h h1 : store) (r : ref) (img0 final : Image)
    (frames : list Image) (game : ChessGame) (e : exn) :
  (if _should_redraw self then _draw_board self else mret self) h = Ok (self1, h1) ->
  _initial_board self1 = Some r -> h1 !! r = Some img0 ->
  ChessGame_load pgn = Ok game ->
  render self1 img0 (state game) (upcoming game) = Ok (final, frames) ->
  int_of_float (duration self1 * 1000)%float = Raise e ->
  create_gif self pgn out_path h = Raise e.
Proof.
  intros Hdraw Hib Hr Hload Hrender Hms. unfold create_gif.
  unfold mbind at 1. unfold M_bind.
  rewrite (create_gif_frames_eq _ _ _ _ _ _ _ _ Hdraw Hib Hr Hload), Hrender.
  unfold_m.
  match goal with
  | |- context [list_index ?l 0] =>
      change (list_index l 0) with (@Ok nat (S (length h1)))
  end.
  cbv iota beta. rewrite Hms. reflexivity.
Qed.

(** X9: a duration whose product by 1000 is not a finite number makes
    [create_gif] fail, with [ValueError] or [OverflowError] from [int], and
    save nothing, although every frame of the game was rendered before. *)
Theorem create_gif_bad_duration (self : PgnToGifCreator) (pgn : string)
    (out_path : option string) (h : store) (game : ChessGame) (e : exn) :
  ready self h = true -> drawable self = true ->
  ChessGame_load pgn = Ok game -> game_ok self game = true ->
  int_of_float (duration self * 1000)%float = Raise e ->
  create_gif self pgn out_path h = Raise e
  /\ (e = ValueError \/ e = OverflowError)
  /\ exists res, create_gif_frames self pgn h = Ok res.
Proof.
  intros Hready Hdraw Hload Hgame Hms.
  destruct (game_ok_split _ _ Hgame) as [Hwf Hsafe].
  destruct (render_prepared self h game Hready Hdraw Hwf Hsafe)
    as (img0 & r & final & frames & Hprep & Hib & Hr & _ & _ & _ & Hrender & _).
  cbv zeta in Hprep, Hib, Hr, Hrender.
  split.
  { apply (create_gif_duration_error _ _ _ _ _ _ _ _ _ _ _ _ Hprep Hib Hr Hload Hrender).
    rewrite prepared_duration. exact Hms. }
  split; [eapply int_of_float_errors, Hms|].
  rewrite (create_gif_frames_eq _ _ _ _ _ _ _ _ Hprep Hib Hr Hload), Hrender. eauto.
Qed.

(** X10: [create_gif] saves to [out_path] when it is given and not empty,
    and otherwise to the stem of the PGN path followed by [.gif]; the file
    loops forever, is optimized, and each frame lasts the duration in
    milliseconds, truncated to an integer. *)
Theorem create_gif_save_parameters (self : PgnToGifCreator) (pgn : string)
    (out_path : option string) (h : store) (game : ChessGame) (ms : Z) :
  ready self h = true -> drawable self = true ->
  ChessGame_load pgn = Ok game -> game_ok self game = true ->
  int_of_float (duration self * 1000)%float = Ok ms ->
  exists (self' : PgnToGifCreator) (gif : GifFile) (h' : store),
    create_gif self pgn out_path h = Ok ((self', gif), h')
    /\ gif_path gif
       = match out_path with
         | Some (String a p) => String a p
         | Some EmptyString | None => (Path_stem pgn ++ ".gif")%string
         end
    /\ gif_duration gif = ms /\ gif_loop gif = 0 /\ gif_optimize gif = true.
Proof.
  intros Hready Hdraw Hload Hgame Hms.
  destruct (create_gif_ok self pgn out_path h game ms Hready Hdraw Hload Hgame Hms)
    as (img0 & r & final & frames & Hgif & _).
  cbv zeta in Hgif. do 3 eexists. split; [exact Hgif|]. simpl.
  split; [|repeat split]. unfold save_path.
  destruct out_path as [[|a p]|]; reflexivity.
Qed.

(** *** The sprite cache *)

Lemma find_snoc {A} (f : A -> bool) (l : list A) (a : A) :
  find f (l ++ [a])
  = match find f l with
    | Some b => Some b
    | None => if f a then Some a else None
    end.
Proof.
  induction l as [|b l IH]; simpl; [reflexivity|].
  destruct (f b); [reflexivity | exact IH].
Qed.

Lemma fold_insert_lookup (stem : string -> string) (l : list string) (k : string) :
  forall m : gmap string Image,
  fold_left (fun pieces asset => <[stem asset := Image_open asset]> pieces) l m !! k
  = match find (fun asset => String.eqb (stem asset) k) (rev l) with
    | Some asset => Some (Image_open asset)
    | None => m !! k
    end.
Proof.
  induction l as [|a l IH]; intros m; simpl; [reflexivity|].
  rewrite IH, find_snoc.
  destruct (find (fun asset => String.eqb (stem asset) k) (rev l)); [reflexivity|].
  destruct (String.eqb (stem a) k) eqn:E.
  - apply String.eqb_eq in E. subst k. apply lookup_insert_eq.
  - apply String.eqb_neq in E. apply lookup_insert_ne, E.
Qed.

(** X11: [_draw_board] fills the sprite cache only when it is empty: each
    file of the directory is then found under its stem, the last one listed
    winning when two files share a stem, and a stem of no file has no
    sprite.  A cache that is not empty is left as it is, whatever the
    directory holds. *)
Theorem draw_board_sprite_cache (self self' : PgnToGifCreator) (h h' : store)
    (k : string) :
  _draw_board self h = Ok (self', h') ->
  _pieces self' !! k
  = if Nat.eqb (size (_pieces self)) 0
    then Image_open <$> asset_of_stem k
    else _pieces self !! k.
Proof.
  rewrite draw_board_eq. destruct (initial_canvas self); [|discriminate].
  intros [= <- _]. simpl.
  destruct (Nat.eqb (size (_pieces self)) 0) eqn:E; [|reflexivity].
  apply Nat.eqb_eq, map_size_empty_iff in E.
  unfold load_assets, asset_of_stem. rewrite fold_insert_lookup, E.
  destruct (find _ (rev assets)); [reflexivity | apply lookup_empty].
Qed.

(** X12: when the initial canvas is stale and a piece of the starting
    position has no sprite, [create_gif] fails with [KeyError] while it
    paints the initial canvas, before the game is even loaded. *)
Theorem create_gif_missing_sprite (self : PgnToGifCreator) (pgn : string)
    (out_path : option string) (h : store) :
  _should_redraw self = true ->
  forallb valid_square (keys INITIAL_STATE) = true ->
  forallb (paintable (sprites self) INITIAL_STATE) (keys INITIAL_STATE) = false ->
  create_gif self pgn out_path h = Raise KeyError
  /\ _draw_board self h = Raise KeyError.
Proof.
  intros Hre Hv Hp.
  assert (Hcanvas : initial_canvas self = Raise KeyError).
  { unfold initial_canvas.
    pose proof (update_board_image_cases (redrawn self 0%nat) INITIAL_STATE
                  (keys INITIAL_STATE)
                  (Image_new "RGBA" (_BOARD_SIZE, _BOARD_SIZE) None)) as H.
    unfold sprites, prepared in Hp. rewrite Hre in Hp. rewrite Hp in H.
    apply H; simpl; eauto. }
  assert (Hdraw : _draw_board self h = Raise KeyError)
    by (rewrite draw_board_eq, Hcanvas; reflexivity).
  split; [|exact Hdraw].
  unfold create_gif, create_gif_frames. unfold_m. rewrite Hre, Hdraw. reflexivity.
Qed.

(** *** The arrow of a ply *)

(** X13: the ends of the arrow are decided by the second changed square
    alone: when it is occupied the head is at its centre and the tail at the
    centre of the first changed square, and when it is empty the head is at
    the centre of the first one and the tail at its own, also when the first
    one is empty too; the changed squares after the second play no part. *)
Theorem arrow_decided_by_second_square (self : PgnToGifCreator) (cur : snapshot)
    (s0 s1 : string) (rest : list string) (p1 : string) (c0 c1 : Z * Z) :
  dict_get cur s1 = Ok p1 ->
  _coordinates_of_square self s0 = Ok c0 ->
  _coordinates_of_square self s1 = Ok c1 ->
  let head := if truthy p1 then c1 else c0 in
  let tail := if truthy p1 then c0 else c1 in
  arrow_of_move self cur (s0 :: s1 :: rest)
  = Ok ((centre tail).1, (centre tail).2, (centre head).1, (centre head).2)
  /\ arrow_of_move self cur (s0 :: s1 :: rest) = arrow_of_move self cur [s0; s1].
Proof.
  intros Hp H0 H1 head tail.
  rewrite !(arrow_of_move_eq _ _ _ _ _ _ _ _ Hp H0 H1).
  unfold head, tail. destruct (truthy p1); split; reflexivity.
Qed.

(** *** The frames of a longer game *)

Lemma last_cons_any {A} (a : A) (l : list A) (d : A) :
  List.last (a :: l) d = List.last l a.
Proof.
  revert a d. induction l as [|b l IH]; intros a d; [reflexivity|].
  change (List.last (b :: l) d = List.last (b :: l) a).
  rewrite (IH b d), (IH b a). reflexivity.
Qed.

Lemma render_cons (self : PgnToGifCreator) (img : Image) (previous cur : snapshot)
    (rest : list snapshot) :
  render self img previous (cur :: rest)
  = (img ← repaint self previous cur img;
     frame ← frame_of self previous cur img;
     '(final, frames) ← render self img cur rest;
     Ok (final, frame :: frames)).
Proof. reflexivity. Qed.

Lemma render_app (self : PgnToGifCreator) (l1 l2 : list snapshot) :
  forall (previous : snapshot) (img : Image),
  render self img previous (l1 ++ l2)
  = match render self img previous l1 with
    | Raise e => Raise e
    | Ok (mid, frames1) =>
        match render self mid (last_state previous l1) l2 with
        | Raise e => Raise e
        | Ok (final, frames2) => Ok (final, frames1 ++ frames2)
        end
    end.
Proof.
  induction l1 as [|cur l1 IH]; intros previous img.
  - simpl. unfold last_state. simpl.
    destruct (render self img previous l2) as [[final frames2]|]; reflexivity.
  - rewrite <- app_comm_cons, !render_cons. unfold_m.
    replace (last_state previous (cur :: l1)) with (last_state cur l1)
      by (unfold last_state; symmetry; apply last_cons_any).
    destruct (repaint self previous cur img) as [img'|]; [|reflexivity].
    destruct (frame_of self previous cur img') as [frame|]; [|reflexivity].
    rewrite IH.
    destruct (render self img' cur l1) as [[mid frames1]|]; [|reflexivity].
    destruct (render self mid (last_state cur l1) l2) as [[final frames2]|]; reflexivity.
Qed.

(** X14: the frames of a game do not depend on the plies that follow:
    rendered from the same instance and store, a game and the same game
    continued by more plies give the same initial frame and the same frames
    for the common plies; the longer one has one more frame per added ply. *)
Theorem create_gif_frames_extend (self : PgnToGifCreator) (pgn1 pgn2 : string)
    (out1 out2 : option string) (h : store) (game1 game2 : ChessGame)
    (more : list snapshot) (ms : Z) :
  ready self h = true -> drawable self = true ->
  ChessGame_load pgn1 = Ok game1 -> ChessGame_load pgn2 = Ok game2 ->
  state game2 = state game1 -> upcoming game2 = upcoming game1 ++ more ->
  game_ok self game2 = true ->
  int_of_float (duration self * 1000)%float = Ok ms ->
  exists (self' : PgnToGifCreator) (gif1 gif2 : GifFile) (h1 h2 : store)
         (first : Image) (core added : list Image),
    create_gif self pgn1 out1 h = Ok ((self', gif1), h1)
    /\ create_gif self pgn2 out2 h = Ok ((self', gif2), h2)
    /\ gif_images gif1 = (first :: core) ++ replicate 3 (List.last core first)
    /\ gif_images gif2
       = (first :: core ++ added) ++ replicate 3 (List.last (core ++ added) first)
    /\ length core = plies game1 /\ length added = length more.
Proof.
  intros Hready Hdraw Hload1 Hload2 Hstate Hup Hgame Hms.
  destruct (game_ok_split _ _ Hgame) as [Hwf Hsafe].
  destruct (render_prepared self h game2 Hready Hdraw Hwf Hsafe)
    as (img0 & r & final & frames & Hprep & Hib & Hr & _ & _ & _ & Hrender & Hlen & _).
  cbv zeta in Hprep, Hib, Hr, Hrender.
  assert (Hms1 : int_of_float (duration (prepared self (length h)) * 1000)%float = Ok ms)
    by (rewrite prepared_duration; exact Hms).
  pose proof Hrender as Hrender2.
  rewrite Hup, Hstate, render_app in Hrender.
  destruct (render (prepared self (length h)) img0 (state game1) (upcoming game1))
    as [[mid core]|] eqn:Hrender1; [|discriminate].
  destruct (render (prepared self (length h)) mid
              (last_state (state game1) (upcoming game1)) more)
    as [[final' added]|] eqn:Hrender3; [|discriminate].
  injection Hrender as <- <-.
  eexists _, _, _, _, _, img0, core, added.
  split; [apply (create_gif_eq _ _ _ _ _ _ _ _ _ _ _ _ Hprep Hib Hr Hload1 Hrender1 Hms1)|].
  split; [apply (create_gif_eq _ _ _ _ _ _ _ _ _ _ _ _ Hprep Hib Hr Hload2 Hrender2 Hms1)|].
  split; [reflexivity|]. split; [reflexivity|].
  split; [apply (render_length _ _ _ _ _ _ Hrender1)|].
  apply (render_length _ _ _ _ _ _ Hrender3).
Qed.

(** *** The reversed board *)

Lemma flipped_coordinates (self : PgnToGifCreator) (s : string) :
  valid_square s = true ->
  exists crd,
    _coordinates_of_square self s = Ok crd
    /\ _coordinates_of_square (flipped self) s
       = Ok (_BOARD_SIZE - _SQ_SIZE - crd.1, _BOARD_SIZE - _SQ_SIZE - crd.2)
    /\ white_square (_BOARD_SIZE - _SQ_SIZE - crd.1, _BOARD_SIZE - _SQ_SIZE - crd.2)
       = white_square crd.
Proof.
  intros Hv. apply valid_square_name in Hv. destruct Hv as (c & r & Hc & Hr & ->).
  pose proof (coordinates_of_square_name self c r Hc Hr) as H1.
  pose proof (coordinates_of_square_name (flipped self) c r Hc Hr) as H2.
  eexists. split; [exact H1|]. split.
  - rewrite H2. simpl. change _SQ_SIZE with 60. change _BOARD_SIZE with 480.
    destruct (_reverse self); simpl; do 2 f_equal; lia.
  - rewrite (white_square_parity self c r _ Hc Hr H1).
    apply (white_square_parity (flipped self) c r _ Hc Hr).
    rewrite H2. simpl. change _SQ_SIZE with 60. change _BOARD_SIZE with 480.
    destruct (_reverse self); simpl; do 2 f_equal; lia.
Qed.

(** X17: flipping the reversal flag turns the board by a half turn and
    changes nothing else: on valid squares, repainting with the flag flipped
    pastes the same tiles and the same sprites, in the same order, each at
    the corner that the half turn gives to its box, and fails with the same
    exception when the repainting fails. *)
Theorem update_board_image_half_turn (self : PgnToGifCreator) (st : snapshot)
    (changed : list string) (img : Image) :
  forallb valid_square changed = true ->
  _update_board_image (flipped self) (half_turn img) st changed
  = match _update_board_image self img st changed with
    | Ok img' => Ok (half_turn img')
    | Raise e => Raise e
    end.
Proof.
  revert img. induction changed as [|s changed IH]; intros img Hv; [reflexivity|].
  simpl in Hv. apply andb_true_iff in Hv. destruct Hv as [Hs Hv].
  destruct (flipped_coordinates self s Hs) as (crd & H1 & H2 & Hw).
  simpl. rewrite H1, H2. unfold_m. rewrite Hw.
  destruct (if white_square crd then attr (_ws self) else attr (_bs self))
    as [tile|]; [|reflexivity].
  destruct (dict_get st s) as [p|]; [|reflexivity].
  destruct (truthy p).
  - destruct (pieces_get (_pieces self) p) as [sprite|]; [|reflexivity].
    apply (IH (Image_paste (Image_paste img tile crd tile) sprite crd sprite) Hv).
  - apply (IH (Image_paste img tile crd tile) Hv).
Qed.

(** *** [main] *)

Lemma create_gif_load_error (self : PgnToGifCreator) (pgn : string)
    (out_path : option string) (h : store) (e : exn) :
  ready self h = true -> drawable self = true ->
  ChessGame_load pgn = Raise e ->
  create_gif self pgn out_path h = Raise e.
Proof.
  intros Hready Hdraw Hload.
  destruct (prepare_ok self h Hready Hdraw) as (img0 & r & Hprep & Hib & Hr & _).
  cbv zeta in Hprep, Hib, Hr.
  unfold create_gif, create_gif_frames. unfold_m.
  rewrite Hprep, Hib. simpl. rewrite (Image_copy_eq _ _ _ Hr).
  rewrite (Image_copy_eq _ _ _ (lookup_snoc_length _ img0)).
  rewrite Hload. reflexivity.
Qed.

Lemma paths_ok_prepared (creator : PgnToGifCreator) (r : ref) (paths : list string) :
  paths_ok (prepared creator r) paths = paths_ok creator paths.
Proof.
  unfold paths_ok. induction paths as [|pgn paths IH]; [reflexivity|].
  simpl. rewrite IH. destruct (ChessGame_load pgn); [|reflexivity].
  rewrite game_ok_prepared. reflexivity.
Qed.

Lemma main_loop_step (Path_join : string -> string -> string)
    (creator : PgnToGifCreator) (out pgn : string) (h : store) (ms : Z) :
  ready creator h = true -> drawable creator = true ->
  paths_ok creator [pgn] = true ->
  int_of_float (duration creator * 1000)%float = Ok ms ->
  exists (gif : GifFile) (h' : store),
    create_gif creator pgn (Some (Path_join out (Path_stem pgn ++ ".gif")%string)) h
    = Ok ((prepared creator (length h), gif), h')
    /\ saved_for Path_join out pgn gif
    /\ ready (prepared creator (length h)) h' = true.
Proof.
  intros Hready Hdraw Hok Hms. unfold paths_ok in Hok. simpl in Hok.
  destruct (ChessGame_load pgn) as [game|] eqn:Hload; [|discriminate].
  rewrite andb_true_r in Hok.
  destruct (create_gif_ok creator pgn
              (Some (Path_join out (Path_stem pgn ++ ".gif")%string)) h game ms
              Hready Hdraw Hload Hok Hms)
    as (img0 & r & final & frames & Hgif & Hib & Hr & Hd & _ & Hlen & _).
  cbv zeta in Hgif, Hib, Hr.
  do 2 eexists. split; [exact Hgif|]. split.
  - split; [reflexivity|]. exists game. split; [exact Hload|].
    simpl. rewrite length_app. simpl. rewrite Hlen. lia.
  - eapply ready_prepared; eauto.
Qed.

Lemma main_loop_ok (Path_join : string -> string -> string) (out : string)
    (paths : list string) (ms : Z) :
  forall (creator : PgnToGifCreator) (h : store),
  ready creator h = true -> drawable creator = true ->
  paths_ok creator paths = true ->
  int_of_float (duration creator * 1000)%float = Ok ms ->
  exists gifs end_state,
    main_loop Path_join creator out paths h = (gifs, Ok end_state)
    /\ Forall2 (saved_for Path_join out) paths gifs.
Proof.
  induction paths as [|pgn paths IH]; intros creator h Hready Hdraw Hok Hms.
  - do 2 eexists. split; [reflexivity | constructor].
  - assert (Hok1 : paths_ok creator [pgn] = true /\ paths_ok creator paths = true).
    { unfold paths_ok in *. simpl in *. apply andb_true_iff in Hok.
      destruct Hok as [H1 H2]. rewrite H1, H2. auto. }
    destruct Hok1 as [Hok1 Hok2].
    destruct (main_loop_step Path_join creator out pgn h ms Hready Hdraw Hok1 Hms)
      as (gif & h' & Hgif & Hsaved & Hready').
    destruct (IH (prepared creator (length h)) h' Hready'
                (drawable_ready _ (prepared_should_redraw _ _)))
      as (gifs & end_state & Hloop & Hall).
    { rewrite paths_ok_prepared. exact Hok2. }
    { rewrite prepared_duration. exact Hms. }
    exists (gif :: gifs), end_state. simpl. rewrite Hgif, Hloop.
    split; [reflexivity | constructor; assumption].
Qed.

Lemma main_loop_stops (Path_join : string -> string -> string) (out pgn : string)
    (before after : list string) (ms : Z) (e : exn) :
  ChessGame_load pgn = Raise e ->
  forall (creator : PgnToGifCreator) (h : store),
  ready creator h = true -> drawable creator = true ->
  paths_ok creator before = true ->
  int_of_float (duration creator * 1000)%float = Ok ms ->
  exists gifs,
    main_loop Path_join creator out (before ++ pgn :: after) h = (gifs, Raise e)
    /\ Forall2 (saved_for Path_join out) before gifs.
Proof.
  intros Hload. induction before as [|p before IH]; intros creator h Hready Hdraw Hok Hms.
  - exists []. simpl. rewrite (create_gif_load_error _ _ _ _ _ Hready Hdraw Hload).
    split; [reflexivity | constructor].
  - assert (Hok1 : paths_ok creator [p] = true /\ paths_ok creator before = true).
    { unfold paths_ok in *. simpl in *. apply andb_true_iff in Hok.
      destruct Hok as [H1 H2]. rewrite H1, H2. auto. }
    destruct Hok1 as [Hok1 Hok2].
    destruct (main_loop_step Path_join creator out p h ms Hready Hdraw Hok1 Hms)
      as (gif & h' & Hgif & Hsaved & Hready').
    destruct (IH (prepared creator (length h)) h' Hready'
                (drawable_ready _ (prepared_should_redraw _ _)))
      as (gifs & Hloop & Hall).
    { rewrite paths_ok_prepared. exact Hok2. }
    { rewrite prepared_duration. exact Hms. }
    exists (gif :: gifs). simpl. rewrite Hgif, Hloop.
    split; [reflexivity | constructor; assumption].
Qed.

(** X15: when every input of the command line loads a game that can be
    rendered, [main] returns and has saved one file per input, in the order
    of the inputs: each in the output folder under the stem of its input
    followed by [.gif], with as many images as its game has plies plus
    four. *)
Theorem main_renders_all (Path_join : string -> string -> string)
    (float_of_str : string -> result float) (args : Namespace) (h : store)
    (d : float) (ms : Z) :
  let creator :=
    __init__ (args_reverse args) d (args_white_square_color args)
      (args_black_square_color args) (args_arrow args) in
  builtin_float float_of_str (args_duration args) = Ok d ->
  int_of_float (d * 1000)%float = Ok ms ->
  drawable creator = true ->
  paths_ok creator (args_path args) = true ->
  exists gifs,
    main Path_join float_of_str args h = (gifs, Ok tt)
    /\ Forall2 (saved_for Path_join (args_out args)) (args_path args) gifs.
Proof.
  intros creator Hd Hms Hdraw Hok.
  destruct (main_loop_ok Path_join (args_out args) (args_path args) ms creator h
              eq_refl Hdraw Hok Hms)
    as (gifs & end_state & Hloop & Hall).
  exists gifs. unfold main. rewrite Hd. fold creator. rewrite Hloop.
  split; [reflexivity | exact Hall].
Qed.

(** X16: [main] stops at the first input whose game cannot be loaded: the
    exception of the loader leaves [main], the inputs before it have their
    files saved, and nothing is saved for that input or for those after
    it. *)
Theorem main_stops_at_first_failure (Path_join : string -> string -> string)
    (float_of_str : string -> result float) (args : Namespace) (h : store)
    (d : float) (ms : Z) (before after : list string) (pgn : string) (e : exn) :
  let creator :=
    __init__ (args_reverse args) d (args_white_square_color args)
      (args_black_square_color args) (args_arrow args) in
  builtin_float float_of_str (args_duration args) = Ok d ->
  int_of_float (d * 1000)%float = Ok ms ->
  drawable creator = true ->
  args_path args = before ++ pgn :: after ->
  paths_ok creator before = true ->
  ChessGame_load pgn = Raise e ->
  exists gifs,
    main Path_join float_of_str args h = (gifs, Raise e)
    /\ Forall2 (saved_for Path_join (args_out args)) before gifs.
Proof.
  intros creator Hd Hms Hdraw Hpaths Hok Hload.
  destruct (main_loop_stops Path_join (args_out args) pgn before after ms e Hload
              creator h eq_refl Hdraw Hok Hms)
    as (gifs & Hloop & Hall).
  exists gifs. unfold main. rewrite Hd, Hpaths. fold creator. rewrite Hloop.
  split; [reflexivity | exact Hall].
Qed.

End Renderer.

(** ** The properties on the concrete environment *)

Lemma coordinates_of_square_spec_e4 :
  _coordinates_of_square (set_reverse PgnToGifCreator_default false) "e4"
  = Ok (240, 240)
  /\ _coordinates_of_square (set_reverse PgnToGifCreator_default true) "e4"
     = Ok (180, 180).
Proof.
  pose proof (coordinates_of_square_spec PgnToGifCreator_default 4 3
                ltac:(lia) ltac:(lia)) as (_ & H1 & H2 & _).
  split; [exact H1 | exact H2].
Defined.

Lemma checker_alternation_e4 :
  exists crd,
    _coordinates_of_square PgnToGifCreator_default "e4" = Ok crd
    /\ white_square crd = true.
Proof.
  destruct (checker_alternation PgnToGifCreator_default 4 3 ltac:(lia) ltac:(lia))
    as (crd & H1 & H2 & _).
  exists crd. split; [exact H1 | exact H2].
Defined.

Lemma draw_arrow_geometry_e2_e4 :
  exists vtx0 vtx1,
    _draw_arrow atan2_stub cos_stub sin_stub blank_board 270 390 270 270 3
      (ColorRGB 120 30 72)
    = ImageDraw_polygon
        (ImageDraw_line blank_board (270, 390, 270, 270)%float (ColorRGB 120 30 72) 3)
        [vtx0; vtx1; (270, 270)%float] (ColorRGB 120 30 72) (ColorRGB 120 30 72)
    /\ vtx0 = (260, 294)%float /\ vtx1 = (280, 294)%float.
Proof.
  destruct (draw_arrow_geometry atan2_stub cos_stub sin_stub blank_board
              270 390 270 270 3 (ColorRGB 120 30 72) eq_refl)
    as (vtx0 & vtx1 & H & Hv & _).
  exists vtx0, vtx1. split; [exact H|]. exact (Hv eq_refl).
Defined.

Lemma changed_squares_exact_e4 :
  changed_squares_of after_e4 standard_initial_state = Ok ["e4"; "e2"].
Proof.
  destruct (changed_squares_exact after_e4 standard_initial_state eq_refl)
    as (changed & H & -> & _).
  exact H.
Defined.

Lemma create_gif_frame_count_e4 :
  exists self' gif h',
    create_gif standard_initial_state load_e4 standard_assets stem_of
      atan2_stub cos_stub sin_stub PgnToGifCreator_default "games/e4.pgn" None []
    = Ok ((self', gif), h')
    /\ length (gif_images gif) = 5%nat.
Proof.
  destruct (create_gif_frame_count standard_initial_state load_e4 standard_assets
              stem_of atan2_stub cos_stub sin_stub PgnToGifCreator_default
              "games/e4.pgn" None [] game_e4 400
              eq_refl ltac:(vm_compute; reflexivity) eq_refl
              ltac:(vm_compute; reflexivity) ltac:(vm_compute; reflexivity))
    as (self' & gif & h' & first & final & core & board & refs & H & _ & _ & _ & Hn & _).
  exists self', gif, h'. split; [exact H | exact Hn].
Defined.

(** C2 as the specification states it does not hold: on a snapshot source
    that is finished from the start, [create_gif] returns and saves four
    images. *)
Lemma create_gif_empty_game_saves :
  exists res,
    create_gif standard_initial_state load_empty standard_assets stem_of
      atan2_stub cos_stub sin_stub PgnToGifCreator_default "games/empty.pgn" None []
    = Ok res
    /\ length (gif_images res.1.2) = 4%nat.
Proof. eexists. split; [vm_compute; reflexivity | reflexivity]. Qed.

Lemma create_gif_no_ply_empty :
  exists self' gif h' first,
    create_gif standard_initial_state load_empty standard_assets stem_of
      atan2_stub cos_stub sin_stub PgnToGifCreator_default "games/empty.pgn" None []
    = Ok ((self', gif), h')
    /\ gif_images gif = [first; first; first; first].
Proof.
  destruct (create_gif_no_ply standard_initial_state load_empty standard_assets
              stem_of atan2_stub cos_stub sin_stub PgnToGifCreator_default
              "games/empty.pgn" None [] game_empty 400
              eq_refl ltac:(vm_compute; reflexivity) eq_refl eq_refl
              ltac:(vm_compute; reflexivity))
    as (self' & gif & h' & first & H & Himgs & _).
  exists self', gif, h', first. split; [exact H | exact Himgs].
Defined.

Lemma arrow_one_change_index_error_e2 :
  create_gif standard_initial_state load_one_change standard_assets stem_of
    atan2_stub cos_stub sin_stub
    (__init__ false 0.4 "#f0d9b5" "#b58863" true) "games/one.pgn" None []
  = Raise IndexError.
Proof.
  destruct (arrow_one_change_index_error standard_initial_state load_one_change
              standard_assets stem_of atan2_stub cos_stub sin_stub
              (__init__ false 0.4 "#f0d9b5" "#b58863" true) "games/one.pgn" None []
              game_one_change
              eq_refl eq_refl ltac:(vm_compute; reflexivity) eq_refl
              ltac:(vm_compute; reflexivity))
    as [Hunsafe _].
  exact (proj2 (Hunsafe ltac:(vm_compute; reflexivity))).
Defined.

Lemma frames_are_copies_e4 :
  exists self' board_image refs h',
    create_gif_frames standard_initial_state load_e4 standard_assets stem_of
      atan2_stub cos_stub sin_stub
      (__init__ false 0.4 "#f0d9b5" "#b58863" true) "games/e4.pgn" []
    = Ok ((self', board_image, refs ++ replicate 3 (List.last refs 0%nat)), h')
    /\ NoDup (board_image :: refs)
    /\ exists canvas, h' !! board_image = Some canvas /\ drawn_on canvas = false.
Proof.
  destruct (frames_are_copies standard_initial_state load_e4 standard_assets
              stem_of atan2_stub cos_stub sin_stub
              (__init__ false 0.4 "#f0d9b5" "#b58863" true) "games/e4.pgn" []
              game_e4
              eq_refl ltac:(vm_compute; reflexivity) eq_refl
              ltac:(vm_compute; reflexivity))
    as (self' & board & refs & h' & first & frames & canvases
        & H & Hnd & _ & _ & _ & Hd & _ & _ & _ & Hlive & Hall).
  exists self', board, refs, h'. split; [exact H|]. split; [exact Hnd|].
  exists (List.last canvases first). split; [exact Hlive|].
  exact (last_Forall (fun canvas => drawn_on canvas = false) canvases first Hall).
Defined.

Lemma arrow_between_centres_e4 :
  exists vtx0 vtx1,
    ply atan2_stub cos_stub sin_stub arrow_creator 0%nat
      standard_initial_state after_e4 [] [blank_board]
    = Ok ([1%nat],
          [e4_canvas;
           ImageDraw_polygon
             (ImageDraw_line e4_canvas (270, 390, 270, 270)%float
                (ColorRGB 120 30 72) 3)
             [vtx0; vtx1; (270, 270)%float]
             (ColorRGB 120 30 72) (ColorRGB 120 30 72)]).
Proof.
  destruct (arrow_between_centres atan2_stub cos_stub sin_stub arrow_creator 0%nat
              standard_initial_state after_e4 [] [blank_board] blank_board e4_canvas
              "e4" "e2" [] "wp" EmptyString (240, 240) (240, 360)
              eq_refl eq_refl ltac:(vm_compute; reflexivity)
              ltac:(vm_compute; reflexivity) eq_refl eq_refl eq_refl eq_refl eq_refl)
    as (vtx0 & vtx1 & H & _).
  exists vtx0, vtx1. exact H.
Defined.

Lemma setters_invalidate_canvas_reverse :
  exists self1 gif1 h1,
    create_gif standard_initial_state load_e4 standard_assets stem_of
      atan2_stub cos_stub sin_stub PgnToGifCreator_default "games/e4.pgn" None []
    = Ok ((self1, gif1), h1)
    /\ _should_redraw self1 = false
    /\ _should_redraw (set_reverse self1 true) = true
    /\ reverse (set_reverse self1 true) = true
    /\ exists self3 gif2 h2 canvas,
         create_gif standard_initial_state load_e4 standard_assets stem_of
           atan2_stub cos_stub sin_stub (set_reverse self1 true)
           "games/e4.pgn" None h1
         = Ok ((self3, gif2), h2)
         /\ initial_canvas standard_initial_state standard_assets stem_of
              (__init__ true 0.4 "#f0d9b5" "#b58863" false)
            = Ok canvas
         /\ head (gif_images gif2) = Some canvas
         /\ reverse self3 = true
         /\ _initial_board self3 <> _initial_board self1
         /\ _pieces self3 = _pieces self1.
Proof.
  destruct (setters_invalidate_canvas standard_initial_state load_e4 standard_assets
              stem_of atan2_stub cos_stub sin_stub
              false 0.4 "#f0d9b5" "#b58863" false
              "games/e4.pgn" "games/e4.pgn" None None [] game_e4 game_e4 400
              ltac:(vm_compute; reflexivity) eq_refl ltac:(vm_compute; reflexivity)
              eq_refl ltac:(vm_compute; reflexivity) ltac:(vm_compute; reflexivity))
    as (self1 & gif1 & h1 & H1 & Hre & _ & Hset).
  exists self1, gif1, h1. split; [exact H1|]. split; [exact Hre|].
  destruct (Hset (set_reverse self1 true) true "#f0d9b5" "#b58863"
              (or_introl (ex_intro _ true (conj eq_refl eq_refl))))
    as (Hre2 & _ & Hrev2 & _ & _ & self3 & gif2 & h2 & canvas
        & H2 & _ & Hfresh & Hhead & _ & Hne & _ & _ & Hp & _ & _ & _ & Hrev3 & _).
  split; [exact Hre2|]. split; [exact Hrev2|].
  exists self3, gif2, h2, canvas. split; [exact H2|]. split; [exact Hfresh|].
  split; [exact Hhead|]. split; [exact Hrev3|]. split; [exact Hne | exact Hp].
Defined.

Lemma coordinates_of_square_injective_e4 :
  _coordinates_of_square PgnToGifCreator_default "e2" <> Ok (240, 240).
Proof.
  intros H.
  destruct (coordinates_of_square_injective PgnToGifCreator_default "e4" "e2"
              (240, 240) eq_refl eq_refl eq_refl) as (_ & _ & Hinj).
  discriminate (Hinj H).
Defined.

Lemma update_board_image_key_error_no_sprite :
  _update_board_image
    (set_reverse (__init__ false 0.4 "#f0d9b5" "#b58863" false) false)
    blank_board after_e4 ["e4"; "e2"]
  = Raise AttributeError
  /\ _update_board_image arrow_creator blank_board e2_and_e4 ["e4"; "e2"]
     = Ok e4_canvas
  /\ _update_board_image arrow_creator blank_board [("e4", "xx")] ["e4"]
     = Raise KeyError.
Proof.
  split; [reflexivity|]. split; [vm_compute; reflexivity|].
  exact (proj1 (update_board_image_key_error arrow_creator blank_board
                  [("e4", "xx")] ["e4"]
                  (ex_intro _ _ eq_refl) (ex_intro _ _ eq_refl) eq_refl)
               ltac:(vm_compute; reflexivity)).
Defined.

Lemma changed_squares_missing_key_e4 :
  changed_squares_of e2_and_e4 only_e2 = Raise KeyError.
Proof.
  exact (proj1 (changed_squares_missing_key atan2_stub cos_stub sin_stub
                  PgnToGifCreator_default 0%nat e2_and_e4 only_e2 [] [] eq_refl)).
Defined.

Lemma ply_unchanged_initial :
  ply atan2_stub cos_stub sin_stub arrow_creator 0%nat
    standard_initial_state standard_initial_state [] [blank_board]
  = Ok ([1%nat], [blank_board; blank_board]).
Proof.
  exact (ply_unchanged atan2_stub cos_stub sin_stub arrow_creator 0%nat
           standard_initial_state [] [blank_board] blank_board eq_refl).
Defined.

Lemma create_gif_allocates_only_e4 :
  exists self' gif new,
    create_gif standard_initial_state load_e4 standard_assets stem_of
      atan2_stub cos_stub sin_stub PgnToGifCreator_default "games/e4.pgn" None
      [blank_board]
    = Ok ((self', gif), blank_board :: new)
    /\ length new = 4%nat.
Proof.
  destruct (create_gif_allocates_only standard_initial_state load_e4 standard_assets
              stem_of atan2_stub cos_stub sin_stub PgnToGifCreator_default
              "games/e4.pgn" None [blank_board] game_e4 400
              eq_refl ltac:(vm_compute; reflexivity) eq_refl
              ltac:(vm_compute; reflexivity) ltac:(vm_compute; reflexivity))
    as (self' & gif & new & H & Hlen & _).
  exists self', gif, new. split; [exact H | exact Hlen].
Defined.

Lemma create_gif_reuses_canvas_e4 :
  exists self1 gif1 gif2 h1 h2,
    create_gif standard_initial_state load_by_name standard_assets stem_of
      atan2_stub cos_stub sin_stub PgnToGifCreator_default "games/e4.pgn" None []
    = Ok ((self1, gif1), h1)
    /\ create_gif standard_initial_state load_by_name standard_assets stem_of
         atan2_stub cos_stub sin_stub self1 "games/empty.pgn" None h1
       = Ok ((self1, gif2), h2)
    /\ length h2 = (length h1 + 2)%nat.
Proof.
  destruct (create_gif_reuses_canvas standard_initial_state load_by_name
              standard_assets stem_of atan2_stub cos_stub sin_stub
              PgnToGifCreator_default "games/e4.pgn" "games/empty.pgn" None None []
              game_e4 game_empty 400
              eq_refl ltac:(vm_compute; reflexivity) eq_refl
              ltac:(vm_compute; reflexivity) eq_refl
              ltac:(vm_compute; reflexivity) ltac:(vm_compute; reflexivity))
    as (self1 & gif1 & gif2 & h1 & h2 & H1 & H2 & _ & Hlen & _).
  exists self1, gif1, gif2, h1, h2.
  split; [exact H1|]. split; [exact H2|].
  rewrite Hlen. change (plies game_empty) with 0%nat. lia.
Defined.

Lemma create_gif_bad_duration_nan :
  create_gif standard_initial_state load_e4 standard_assets stem_of
    atan2_stub cos_stub sin_stub
    (__init__ false nan "#f0d9b5" "#b58863" false) "games/e4.pgn" None []
  = Raise ValueError.
Proof.
  exact (proj1 (create_gif_bad_duration standard_initial_state load_e4
                  standard_assets stem_of atan2_stub cos_stub sin_stub
                  (__init__ false nan "#f0d9b5" "#b58863" false)
                  "games/e4.pgn" None [] game_e4 ValueError
                  eq_refl ltac:(vm_compute; reflexivity) eq_refl
                  ltac:(vm_compute; reflexivity) ltac:(vm_compute; reflexivity))).
Defined.

Lemma create_gif_save_parameters_e4 :
  exists self' gif h',
    create_gif standard_initial_state load_e4 standard_assets stem_of
      atan2_stub cos_stub sin_stub PgnToGifCreator_default "games/e4.pgn"
      (Some EmptyString) []
    = Ok ((self', gif), h')
    /\ gif_path gif = "e4.gif" /\ gif_duration gif = 400.
Proof.
  destruct (create_gif_save_parameters standard_initial_state load_e4
              standard_assets stem_of atan2_stub cos_stub sin_stub
              PgnToGifCreator_default "games/e4.pgn" (Some EmptyString) []
              game_e4 400
              eq_refl ltac:(vm_compute; reflexivity) eq_refl
              ltac:(vm_compute; reflexivity) ltac:(vm_compute; reflexivity))
    as (self' & gif & h' & H & Hpath & Hms & _).
  exists self', gif, h'. split; [exact H|]. split; [exact Hpath | exact Hms].
Defined.

Lemma draw_board_sprite_cache_wp :
  exists self' h',
    _draw_board standard_initial_state assets_two_wp stem_of
      PgnToGifCreator_default []
    = Ok (self', h')
    /\ _pieces self' !! "wp" = Some (Image_open "assets/wp.png")
    /\ _pieces self' !! "zz" = None.
Proof.
  destruct (_draw_board standard_initial_state assets_two_wp stem_of
              PgnToGifCreator_default []) as [[self' h']|e] eqn:H;
    [|vm_compute in H; discriminate H].
  exists self', h'. split; [reflexivity|].
  rewrite !(draw_board_sprite_cache standard_initial_state assets_two_wp stem_of
              PgnToGifCreator_default self' [] h' _ H).
  split; reflexivity.
Defined.

Lemma create_gif_missing_sprite_no_assets :
  create_gif standard_initial_state load_e4 [] stem_of
    atan2_stub cos_stub sin_stub PgnToGifCreator_default "games/e4.pgn" None []
  = Raise KeyError.
Proof.
  exact (proj1 (create_gif_missing_sprite standard_initial_state load_e4 [] stem_of
                  atan2_stub cos_stub sin_stub PgnToGifCreator_default
                  "games/e4.pgn" None []
                  eq_refl ltac:(vm_compute; reflexivity)
                  ltac:(vm_compute; reflexivity))).
Defined.

Lemma arrow_decided_by_second_square_empty :
  arrow_of_move arrow_creator after_e4 ["e2"; "e3"; "e4"]
  = Ok (270, 330, 270, 390)%float.
Proof.
  exact (proj1 (arrow_decided_by_second_square arrow_creator after_e4
                  "e2" "e3" ["e4"] EmptyString (240, 360) (240, 300)
                  eq_refl eq_refl eq_refl)).
Defined.

Lemma create_gif_frames_extend_e4 :
  exists self' gif1 gif2 h1 h2 first frame,
    create_gif standard_initial_state load_by_name standard_assets stem_of
      atan2_stub cos_stub sin_stub PgnToGifCreator_default "games/empty.pgn" None []
    = Ok ((self', gif1), h1)
    /\ create_gif standard_initial_state load_by_name standard_assets stem_of
         atan2_stub cos_stub sin_stub PgnToGifCreator_default "games/e4.pgn" None []
       = Ok ((self', gif2), h2)
    /\ gif_images gif1 = [first; first; first; first]
    /\ gif_images gif2 = [first; frame; frame; frame; frame].
Proof.
  destruct (create_gif_frames_extend standard_initial_state load_by_name
              standard_assets stem_of atan2_stub cos_stub sin_stub
              PgnToGifCreator_default "games/empty.pgn" "games/e4.pgn" None None []
              game_empty game_e4 [after_e4] 400
              eq_refl ltac:(vm_compute; reflexivity) eq_refl eq_refl eq_refl eq_refl
              ltac:(vm_compute; reflexivity) ltac:(vm_compute; reflexivity))
    as (self' & gif1 & gif2 & h1 & h2 & first & core & added
        & H1 & H2 & Hi1 & Hi2 & Hc & Ha).
  destruct core as [|c core]; [|discriminate Hc].
  destruct added as [|frame [|f added]]; try discriminate Ha.
  exists self', gif1, gif2, h1, h2, first, frame.
  split; [exact H1|]. split; [exact H2|]. split; [exact Hi1 | exact Hi2].
Defined.

Lemma main_renders_all_two :
  exists gif1 gif2,
    main standard_initial_state load_by_name standard_assets stem_of
      atan2_stub cos_stub sin_stub join_paths float_of_str_stub args_two []
    = ([gif1; gif2], Ok tt)
    /\ gif_path gif1 = "out/e4.gif" /\ length (gif_images gif1) = 5%nat
    /\ gif_path gif2 = "out/empty.gif" /\ length (gif_images gif2) = 4%nat.
Proof.
  destruct (main_renders_all standard_initial_state load_by_name standard_assets
              stem_of atan2_stub cos_stub sin_stub join_paths float_of_str_stub
              args_two [] 0.4 400
              eq_refl ltac:(vm_compute; reflexivity) ltac:(vm_compute; reflexivity)
              ltac:(vm_compute; reflexivity))
    as (gifs & Hmain & Hall).
  apply Forall2_cons_inv_l in Hall.
  destruct Hall as (gif1 & gifs1 & (Hp1 & g1 & Hl1 & Hn1) & Hall & ->).
  apply Forall2_cons_inv_l in Hall.
  destruct Hall as (gif2 & gifs2 & (Hp2 & g2 & Hl2 & Hn2) & Hall & ->).
  apply Forall2_nil_inv_l in Hall. subst gifs2.
  injection Hl1 as <-. injection Hl2 as <-.
  exists gif1, gif2. split; [exact Hmain|].
  split; [exact Hp1|]. split; [exact Hn1|]. split; [exact Hp2 | exact Hn2].
Defined.

Lemma main_stops_at_first_failure_bad :
  exists gif1,
    main standard_initial_state load_by_name standard_assets stem_of
      atan2_stub cos_stub sin_stub join_paths float_of_str_stub args_with_bad []
    = ([gif1], Raise ValueError)
    /\ gif_path gif1 = "out/e4.gif".
Proof.
  destruct (main_stops_at_first_failure standard_initial_state load_by_name
              standard_assets stem_of atan2_stub cos_stub sin_stub join_paths
              float_of_str_stub args_with_bad [] 0.4 400
              ["games/e4.pgn"] ["games/empty.pgn"] "games/bad.pgn" ValueError
              eq_refl ltac:(vm_compute; reflexivity) ltac:(vm_compute; reflexivity)
              eq_refl ltac:(vm_compute; reflexivity) eq_refl)
    as (gifs & Hmain & Hall).
  apply Forall2_cons_inv_l in Hall.
  destruct Hall as (gif1 & gifs1 & (Hp1 & _) & Hall & ->).
  apply Forall2_nil_inv_l in Hall. subst gifs1.
  exists gif1. split; [exact Hmain | exact Hp1].
Defined.

Lemma update_board_image_half_turn_e4 :
  _update_board_image (flipped arrow_creator) blank_board after_e4 ["e4"; "e2"]
  = Ok (half_turn e4_canvas).
Proof.
  exact (update_board_image_half_turn arrow_creator after_e4 ["e4"; "e2"]
           blank_board eq_refl).
Defined.
